(** * PPE detection demo (app.py): output locator and result renderer

    A shallow embedding of [process_video], [process_image] and of the two
    Streamlit pages that call them.  The program reads the detector's
    output directory [runs/detect] with [glob] and [os.path.getmtime],
    so the embedding threads a [world] (that directory, the widgets put on
    the page, the session state) through a state-and-exception monad. *)

From Stdlib Require Import ZArith Ascii.
From stdpp Require Import gmap strings list sorting.

Local Open Scope Z_scope.

(** ** Python exceptions and results *)

Inductive key :=
| KStr (s : string)
| KInt (i : Z).

(** [OSError] stands for its subclasses OSError, NotADirectoryError
    and IsADirectoryError. *)
Inductive exn :=
| KeyError (k : key)
| TypeError
| OSError (path : string).

Inductive outcome (A : Type) :=
| Return (a : A)
| Raise (e : exn).
Arguments Return {A} a.
Arguments Raise {A} e.

(** ** The detector's output directory

    [runs/detect] holds one entry per name, in the order [os.scandir]
    yields them (which the file system chooses).  A directory entry carries
    the names it lists, again in [os.scandir] order:
    - [Dir listing] is a directory whose listed names are all regular files
      that can be opened and read;
    - [DirOf listing] is a directory given with, for each listed name,
      whether [open(path, "rb").read()] succeeds on it (it does not on a
      sub-directory or on a file without read permission);
    - [File] is anything else [os.stat] succeeds on; it cannot be listed;
    - [Broken] is an entry [os.stat] fails on, such as a symbolic link whose
      target is missing: [os.scandir] lists its name all the same, and its
      [e_mtime] is never read.
    A missing [runs/detect] and an empty one give [glob] the same answer and
    are both the empty list. *)

Inductive node :=
| File
| Dir (listing : list string)
| DirOf (listing : list (string * bool))
| Broken.

Record entry := Entry {
  e_name : string;
  e_mtime : Z;
  e_node : node
}.

(** ** Detector results (ultralytics [Results]) *)

Record Boxes := MkBoxes {
  cls : option (list Z)      (* class id per box; [int(cls)] is the id *)
}.

Record Results := MkResults {
  boxes : option Boxes;
  names : gmap Z string      (* class id -> class name *)
}.

(** ** What the two functions return *)

Record video_out := VideoOut {
  video : string;
  images : list string
}.

Inductive widget :=
| st_title (body : string)
| st_write (body : string)
| st_subheader (body : string)
| st_markdown (body : string)
| st_video (path : string)
| st_image (path : string) (caption : option string)
| st_spinner (text : string)
| st_success (body : string)
| st_warning (body : string)
| st_error (body : string)
| st_download_button (label data_from file_name mime : string).

Record world := World {
  output_root : list entry;
  screen : list widget;                (* oldest first *)
  processed_data : option video_out    (* st.session_state.processed_data *)
}.

(** ** The monad *)

Definition IO (A : Type) : Type := world → outcome A * world.

#[export] Instance IO_ret : MRet IO := λ A a w, (Return a, w).
#[export] Instance IO_bind : MBind IO := λ A B f m w,
  match m w with
  | (Return a, w') => f a w'
  | (Raise e, w') => (Raise e, w')
  end.

Definition raise {A} (e : exn) : IO A := λ w, (Raise e, w).

Definition st (x : widget) : IO () := λ w,
  (Return (), World (output_root w) (screen w ++ [x]) (processed_data w)).

Definition get_processed_data : IO (option video_out) := λ w,
  (Return (processed_data w), w).

Definition set_processed_data (d : option video_out) : IO () := λ w,
  (Return (), World (output_root w) (screen w) d).

(** ** Strings and paths (posixpath) *)

Definition is_slash (c : ascii) : bool := bool_decide (c = "/"%char).

Fixpoint last_char (s : string) : option ascii :=
  match s with
  | EmptyString => None
  | String c EmptyString => Some c
  | String _ s' => last_char s'
  end.

Definition startswith_slash (s : string) : bool :=
  match s with
  | String c _ => is_slash c
  | EmptyString => false
  end.

Definition endswith_slash (s : string) : bool :=
  match last_char s with
  | Some c => is_slash c
  | None => false
  end.

(** [os.path.join(a, b)] *)
Definition os_path_join (a b : string) : string :=
  if startswith_slash b then b
  else if bool_decide (a = "") || endswith_slash a then a +:+ b
  else a +:+ "/" +:+ b.

(** [(p[:i], p[i:])] for [i = p.rfind('/') + 1] *)
Fixpoint rsplit_slash (p : string) : string * string :=
  match p with
  | EmptyString => ("", "")
  | String c p' =>
      let '(h, t) := rsplit_slash p' in
      match h with
      | EmptyString => if is_slash c then (String c "", t) else ("", String c t)
      | _ => (String c h, t)
      end
  end.

(** [s.rstrip('/')] *)
Fixpoint rstrip_slash (s : string) : string :=
  match s with
  | EmptyString => ""
  | String c s' =>
      match rstrip_slash s' with
      | EmptyString => if is_slash c then "" else String c ""
      | r => String c r
      end
  end.

(** [os.path.split(p)]: a head made of slashes only is kept as it is. *)
Definition os_path_split (p : string) : string * string :=
  let '(h, t) := rsplit_slash p in
  (match rstrip_slash h with
   | EmptyString => h
   | h' => h'
   end, t).

Definition os_path_basename (p : string) : string := snd (rsplit_slash p).

(** ** fnmatch and glob

    The patterns of this program are ["*"] and ["*.ext"]: [fnmatch] covers
    [*], [?] and literal characters, case-sensitively as on POSIX. *)

Fixpoint fnmatch (pat : string) : string → bool :=
  match pat with
  | EmptyString => λ n, match n with EmptyString => true | _ => false end
  | String c pat' =>
      if bool_decide (c = "*"%char) then
        fix star (n : string) : bool :=
          fnmatch pat' n ||
          match n with
          | EmptyString => false
          | String _ n' => star n'
          end
      else if bool_decide (c = "?"%char) then
        λ n, match n with
             | EmptyString => false
             | String _ n' => fnmatch pat' n'
             end
      else
        λ n, match n with
             | EmptyString => false
             | String d n' => bool_decide (c = d) && fnmatch pat' n'
             end
  end.

(** [glob._ishidden] *)
Definition ishidden (path : string) : bool :=
  match path with
  | String c _ => bool_decide (c = "."%char)
  | EmptyString => false
  end.

(** [glob._glob1] on the names a directory lists *)
Definition glob1 (listed : list string) (pattern : string) : list string :=
  let visible :=
    if ishidden pattern then listed
    else List.filter (λ x, negb (ishidden x)) listed in
  List.filter (fnmatch pattern) visible.

Definition root_dir : string := "runs/detect".

Definition entry_path (e : entry) : string := os_path_join root_dir (e_name e).

(** The entry a path of the output root names *)
Definition stat (root : list entry) (path : string) : option entry :=
  List.find (λ e, bool_decide (entry_path e = path)) root.

(** [os.stat] succeeds on the entry. *)
Definition statable (e : entry) : bool :=
  match e_node e with
  | Broken => false
  | _ => true
  end.

(** The names a directory lists; nothing else lists any. *)
Definition listing_of (e : entry) : list string :=
  match e_node e with
  | Dir listing => listing
  | DirOf listing => listing.*1
  | File | Broken => []
  end.

(** [os.scandir(dirname)], [None] where it raises [OSError] *)
Definition scandir (root : list entry) (dirname : string) : option (list string) :=
  if bool_decide (dirname = root_dir) then Some (e_name <$> root)
  else match stat root dirname with
       | Some e => match e_node e with
                   | Dir _ | DirOf _ => Some (listing_of e)
                   | File | Broken => None
                   end
       | None => None
       end.

(** [glob.glob(pathname)] for the pathnames of this program: the last
    component is a pattern and the directory part is read literally.  The
    directory is listed ([OSError] gives no match), the names are filtered by
    the last component and joined back to the directory. *)
Definition glob_glob (pathname : string) : IO (list string) := λ w,
  let '(dirname, basename) := os_path_split pathname in
  (Return match scandir (output_root w) dirname with
          | Some listed => os_path_join dirname <$> glob1 listed basename
          | None => []
          end, w).

(** [os.path.getmtime(path)]: [os.stat(path).st_mtime], which follows
    symbolic links and raises FileNotFoundError on a missing path or
    target. *)
Definition os_path_getmtime (path : string) : IO Z := λ w,
  match stat (output_root w) path with
  | Some e => if statable e then (Return (e_mtime e), w) else (Raise (OSError path), w)
  | None => (Raise (OSError path), w)
  end.

(** [max(first :: others, key=key)]: a later item replaces the best one
    only when its key is strictly greater. *)
Fixpoint max_from (key : string → IO Z) (best : string) (best_key : Z)
    (others : list string) : IO string :=
  match others with
  | [] => mret best
  | item :: others' =>
      val ← key item;
      if bool_decide (best_key < val) then max_from key item val others'
      else max_from key best best_key others'
  end.

Definition py_max (key : string → IO Z) (first : string) (others : list string) : IO string :=
  first_key ← key first;
  max_from key first first_key others.

Definition time_sleep (seconds : Z) : IO () := mret ().

(** ** The order of [str]

    A string of this development holds the bytes of a file name.  Python
    handles file names as [str], decoded from those bytes as UTF-8 with the
    surrogateescape error handler ([os.fsdecode]): a well-formed UTF-8
    sequence gives its code point, any other byte [b] gives the lone
    surrogate U+DC00 + [b].  [list.sort] orders [str] by code point. *)

Definition is_cont (c : ascii) : bool :=
  (128 <=? N_of_ascii c)%N && (N_of_ascii c <=? 191)%N.

(** The lead byte and the second byte of a well-formed three-byte sequence *)
Definition three_lead (b0 b1 : N) : bool :=
  ((b0 =? 224) && (160 <=? b1) && (b1 <=? 191) ||
   (225 <=? b0) && (b0 <=? 236) && (128 <=? b1) && (b1 <=? 191) ||
   (b0 =? 237) && (128 <=? b1) && (b1 <=? 159) ||
   (238 <=? b0) && (b0 <=? 239) && (128 <=? b1) && (b1 <=? 191))%N.

(** The lead byte and the second byte of a well-formed four-byte sequence *)
Definition four_lead (b0 b1 : N) : bool :=
  ((b0 =? 240) && (144 <=? b1) && (b1 <=? 191) ||
   (241 <=? b0) && (b0 <=? 243) && (128 <=? b1) && (b1 <=? 191) ||
   (b0 =? 244) && (128 <=? b1) && (b1 <=? 143))%N.

(** [os.fsdecode], as the list of code points of the [str] *)
Fixpoint fsdecode (s : string) : list N :=
  match s with
  | EmptyString => []
  | String c0 r0 =>
      let b0 := N_of_ascii c0 in
      if (b0 <? 128)%N then b0 :: fsdecode r0
      else
        match r0 with
        | EmptyString => (56320 + b0)%N :: fsdecode r0
        | String c1 r1 =>
            let b1 := N_of_ascii c1 in
            if (194 <=? b0)%N && (b0 <=? 223)%N then
              if is_cont c1 then ((b0 - 192) * 64 + (b1 - 128))%N :: fsdecode r1
              else (56320 + b0)%N :: fsdecode r0
            else if three_lead b0 b1 then
              match r1 with
              | String c2 r2 =>
                  if is_cont c2
                  then ((b0 - 224) * 4096 + (b1 - 128) * 64 + (N_of_ascii c2 - 128))%N
                       :: fsdecode r2
                  else (56320 + b0)%N :: fsdecode r0
              | EmptyString => (56320 + b0)%N :: fsdecode r0
              end
            else if four_lead b0 b1 then
              match r1 with
              | String c2 (String c3 r3) =>
                  if is_cont c2 && is_cont c3
                  then ((b0 - 240) * 262144 + (b1 - 128) * 4096 +
                        (N_of_ascii c2 - 128) * 64 + (N_of_ascii c3 - 128))%N
                       :: fsdecode r3
                  else (56320 + b0)%N :: fsdecode r0
              | _ => (56320 + b0)%N :: fsdecode r0
              end
            else (56320 + b0)%N :: fsdecode r0
        end
  end.

(** Lexicographic order of code point sequences *)
Fixpoint lex_le (a b : list N) : bool :=
  match a, b with
  | [], _ => true
  | _ :: _, [] => false
  | x :: a', y :: b' => (x <? y)%N || ((x =? y)%N && lex_le a' b')
  end.

(** [a <= b] on [str] *)
Definition py_str_le (a b : string) : Prop := lex_le (fsdecode a) (fsdecode b).

#[export] Instance py_str_le_dec : RelDecision py_str_le.
Proof. intros a b. unfold py_str_le. apply _. Defined.

(** ** The output locator *)

(** [process_video], lines 19-37 *)
Definition locate_video : IO (option video_out) :=
  output_folders ← glob_glob "runs/detect/*";
  match output_folders with
  | [] => mret None
  | first :: others =>
      latest_folder ← py_max os_path_getmtime first others;
      video_files ← glob_glob (os_path_join latest_folder "*.mp4");
      video_files ← (match video_files with
                      | [] => glob_glob (os_path_join latest_folder "*.avi")
                      | _ => mret video_files
                      end);
      match video_files with
      | [] => mret None
      | processed_video :: _ =>
          image_files ← glob_glob (os_path_join latest_folder "*.jpg");
          image_files ← (match image_files with
                          | [] => glob_glob (os_path_join latest_folder "*.png")
                          | _ => mret image_files
                          end);
          let image_files := merge_sort py_str_le image_files in
          let sample_images := take 3 image_files in
          mret (Some (VideoOut processed_video sample_images))
      end
  end.

(** [process_image], lines 53-63 *)
Definition locate_image : IO (option string) :=
  output_folders ← glob_glob "runs/detect/*";
  match output_folders with
  | [] => mret None
  | first :: others =>
      latest_folder ← py_max os_path_getmtime first others;
      image_files ← glob_glob (os_path_join latest_folder "*.jpg");
      image_files ← (match image_files with
                      | [] => glob_glob (os_path_join latest_folder "*.png")
                      | _ => mret image_files
                      end);
      match image_files with
      | [] => mret None
      | processed_image_path :: _ => mret (Some processed_image_path)
      end
  end.

(** ** Detection info (process_image, lines 66-75) *)

(** [[results[0].names[int(cls)] for cls in boxes.cls.cpu().numpy()]] *)
Fixpoint class_names (r : Results) (ids : list Z) : IO (list string) :=
  match ids with
  | [] => mret []
  | c :: ids' =>
      match names r !! c with
      | Some n => ns ← class_names r ids'; mret (n :: ns)
      | None => raise (KeyError (KInt c))
      end
  end.

Definition detect_info (results : list Results) : IO (gmap string bool) :=
  let detection_info : gmap string bool := {[ "mask" := false; "helmet" := false ]} in
  match results with
  | r0 :: _ =>
      match boxes r0 with
      | Some bx =>
          match cls bx with
          | Some ids =>
              detected_classes ← class_names r0 ids;
              let detection_info :=
                if bool_decide ("mask" ∈ detected_classes)
                then <["mask" := true]> detection_info else detection_info in
              let detection_info :=
                if bool_decide ("helmet" ∈ detected_classes)
                then <["helmet" := true]> detection_info else detection_info in
              mret detection_info
          | None => mret detection_info
          end
      | None => mret detection_info
      end
  | [] => mret detection_info
  end.

(** ** The two processing functions and the pages

    The pretrained detector is a collaborator the program does not
    control: [model_predict source root] gives the results it returns and
    the output root it leaves behind. *)

Section Detector.

(** [YOLO("models/best.pt").predict(source=..., show=False, save=True)] *)
Variable model_predict : string → list entry → list Results * list entry.

Definition YOLO_predict (source : string) : IO (list Results) := λ w,
  let '(results, root') := model_predict source (output_root w) in
  (Return results, World root' (screen w) (processed_data w)).

Definition process_video (video_path : string) : IO (option video_out) :=
  results ← YOLO_predict video_path;
  time_sleep 3;;
  locate_video.

Definition process_image (image_path : string)
  : IO (option string * option (gmap string bool)) :=
  results ← YOLO_predict image_path;
  time_sleep 2;;
  located ← locate_image;
  match located with
  | None => mret (None, None)
  | Some processed_image_path =>
      detection_info ← detect_info results;
      mret (Some processed_image_path, Some detection_info)
  end.

(** [open(path, "rb").read()] succeeds: the path is a [File] of the output
    root, a name listed by a [Dir], or a name listed as readable by a
    [DirOf].  The bytes read are represented by the path they come from. *)
Definition readable (root : list entry) (path : string) : bool :=
  existsb (λ e,
    match e_node e with
    | Dir listing => existsb (λ n, bool_decide (os_path_join (entry_path e) n = path)) listing
    | DirOf listing =>
        existsb (λ n, n.2 && bool_decide (os_path_join (entry_path e) n.1 = path)) listing
    | File => bool_decide (entry_path e = path)
    | Broken => false
    end) root.

Definition open_rb (path : string) : IO string := λ w,
  if readable (output_root w) path then (Return path, w)
  else (Raise (OSError path), w).

Fixpoint for_each {A} (l : list A) (body : A → IO ()) : IO () :=
  match l with
  | [] => mret ()
  | x :: l' => body x;; for_each l' body
  end.

Definition recommendations : string :=
"
            - **Lighting & Angle:** Ensure the camera angle and lighting provide a clear view of the personnel.
            - **Model Calibration:** Adjust the detection confidence threshold if you experience too many false positives/negatives.
            - **Training Data:** Consider including more varied examples of PPE in different environments to improve detection accuracy.
            - **Regular Updates:** Update the model periodically with new data to adapt to changing conditions on the site.
            ".

(** Page "Detection (Video)", lines 87-135.  [uploaded_file] is the name of
    the temporary file the upload was written to (lines 97-99), if a file
    was uploaded.  A session without the key [processed_data] and one
    holding [None] under it are both [processed_data w = None]. *)
Definition video_page (uploaded_file : option string) : IO () :=
  st (st_title "PPE Detection on Construction Sites - Video");;
  st (st_write "Upload a video file (mp4 or avi) to detect PPE using the YOLO model.");;
  match uploaded_file with
  | None => mret ()
  | Some tfile_name =>
      st (st_subheader "Original Uploaded Video");;
      st (st_video tfile_name);;
      cached ← get_processed_data;
      match cached with
      | None =>
          st (st_spinner "Processing video, please wait...");;
          data ← process_video tfile_name;
          set_processed_data data
      | Some _ => mret ()
      end;;
      data ← get_processed_data;
      match data with
      | Some data =>
          st (st_success "Video processed successfully!");;
          processed_video_bytes ← open_rb (video data);
          st (st_download_button "Download Processed Video" processed_video_bytes
                "processed_video.mp4" "video/mp4");;
          match images data with
          | [] => st (st_warning "No processed images found to display.")
          | imgs =>
              st (st_subheader "Sample Processed Images");;
              for_each imgs (λ img_file,
                st (st_image img_file (Some (os_path_basename img_file))))
          end;;
          st (st_subheader "Recommendations");;
          st (st_markdown recommendations)
      | None =>
          st (st_error "Error: Could not locate the processed video. Please try again.")
      end
  end.

(** [detection_info[k]] *)
Definition getitem (d : option (gmap string bool)) (k : string) : IO bool :=
  match d with
  | None => raise TypeError
  | Some m =>
      match m !! k with
      | Some b => mret b
      | None => raise (KeyError (KStr k))
      end
  end.

(** Lines 168-171 *)
Definition show_verdict (missing : list string) : IO () :=
  match missing with
  | [] => st (st_success "All required PPE detected!")
  | _ => st (st_error ("Warning: No " +:+ String.concat " and " missing +:+ " detected!"))
  end.

(** Page "Image Detection", lines 140-173 *)
Definition image_page (uploaded_image : option string) : IO () :=
  st (st_title "🦺 PPE Detection System - Image");;
  st (st_write "Upload an image file (jpg or png) to detect PPE using the YOLO model.");;
  match uploaded_image with
  | None => mret ()
  | Some img_temp_name =>
      st (st_markdown "<h4>📸 Uploaded Image:</h4>");;
      st (st_image img_temp_name None);;
      st (st_spinner "Processing image, please wait...");;
      '(processed_img, detection_info) ← process_image img_temp_name;
      match processed_img with
      | Some (String _ _ as processed_img) =>
          st (st_markdown "<h4>🔍 Detected Results:</h4>");;
          st (st_image processed_img None);;
          let missing : list string := [] in
          mask ← getitem detection_info "mask";
          let missing := if (mask : bool) then missing else missing ++ ["mask"] in
          hardhat ← getitem detection_info "Hardhat";
          let missing := if (hardhat : bool) then missing else missing ++ ["Hardhat"] in
          show_verdict missing
      | _ =>
          st (st_error "Error: Could not process the image. Please try again.")
      end
  end.

End Detector.

(** ** Well-formed output roots

    Names are POSIX file names (not empty, no slash), unique within
    [runs/detect].  The names directly under [runs/detect] are moreover free
    of the glob metacharacters: [process_video] and [process_image] splice
    the newest entry's path into a second glob pattern, and [glob_glob]
    above reads that directory part literally (the detector names its run
    folders predict, predict2, ...).  That is [wf_names]; in a [wf_root]
    [os.stat] moreover succeeds on every entry. *)

Fixpoint all_chars (p : ascii → bool) (s : string) : bool :=
  match s with
  | EmptyString => true
  | String c s' => p c && all_chars p s'
  end.

Definition posix_name (n : string) : bool :=
  negb (bool_decide (n = "")) && all_chars (λ c, negb (is_slash c)) n.

Definition glob_literal (n : string) : bool :=
  all_chars (λ c, negb (bool_decide (c ∈ ["*"; "?"; "["]%char))) n.

(** A pattern without [*] and [?] *)
Definition literal (pat : string) : bool :=
  all_chars (λ c, negb (bool_decide (c = "*"%char)) && negb (bool_decide (c = "?"%char))) pat.

Definition named_entry (e : entry) : bool :=
  posix_name (e_name e) && glob_literal (e_name e) && forallb posix_name (listing_of e).

Definition wf_names (root : list entry) : Prop :=
  NoDup (e_name <$> root) ∧ Forall (λ e, named_entry e = true) root.

Definition wf_entry (e : entry) : bool := named_entry e && statable e.

Definition wf_root (root : list entry) : Prop :=
  NoDup (e_name <$> root) ∧ Forall (λ e, wf_entry e = true) root.

(** ** Reading the output root without the file-system calls *)

Definition visible_entries (root : list entry) : list entry :=
  List.filter (λ e, negb (ishidden (e_name e))) root.

(** The first entry, in listing order, among those of greatest [e_mtime]. *)
Fixpoint newest_from (best : entry) (others : list entry) : entry :=
  match others with
  | [] => best
  | e :: others' =>
      if bool_decide (e_mtime best < e_mtime e) then newest_from e others'
      else newest_from best others'
  end.

Definition newest (root : list entry) : option entry :=
  match visible_entries root with
  | [] => None
  | e :: others => Some (newest_from e others)
  end.

Definition ends_with (suffix n : string) : Prop := ∃ stem, n = stem +:+ suffix.

(** [n] is a name that [e] lists, not hidden, ending in [suffix]. *)
Definition lists (suffix : string) (e : entry) (n : string) : Prop :=
  n ∈ listing_of e ∧ ishidden n = false ∧ ends_with suffix n.

(** The names a pattern pair selects: the preferred one, else the fallback. *)
Definition preferred (e : entry) (pat1 pat2 : string) : list string :=
  match glob1 (listing_of e) pat1 with
  | [] => glob1 (listing_of e) pat2
  | found => found
  end.

(** What the locators return, computed from the entries. *)
Definition located_video (root : list entry) : option video_out :=
  match newest root with
  | None => None
  | Some e =>
      match preferred e "*.mp4" "*.avi" with
      | [] => None
      | v :: _ =>
          Some (VideoOut (os_path_join (entry_path e) v)
                  (take 3 (merge_sort py_str_le
                     (os_path_join (entry_path e) <$> preferred e "*.jpg" "*.png"))))
      end
  end.

Definition located_image (root : list entry) : option string :=
  match newest root with
  | None => None
  | Some e => os_path_join (entry_path e) <$> head (preferred e "*.jpg" "*.png")
  end.

(** "Not found" as the code decides it. *)
Definition nothing_found (root : list entry) (suffix1 suffix2 : string) : Prop :=
  visible_entries root = [] ∨
  ∃ e, newest root = Some e ∧
       ∀ n, ¬ lists suffix1 e n ∧ ¬ lists suffix2 e n.

(** "Not found" as the specification words it: no subdirectory, or the most
    recently modified subdirectory holds no file of a recognized extension. *)
Definition is_dir (e : entry) : bool :=
  match e_node e with
  | Dir _ | DirOf _ => true
  | File | Broken => false
  end.

Definition subdirectories (root : list entry) : list entry := List.filter is_dir root.

Definition newest_subdirectory (root : list entry) : option entry :=
  match subdirectories root with
  | [] => None
  | d :: others => Some (newest_from d others)
  end.

Definition no_subdirectory_or_no_media (root : list entry) (suffix1 suffix2 : string) : Prop :=
  subdirectories root = [] ∨
  ∃ d, newest_subdirectory root = Some d ∧
       ∀ n, n ∈ listing_of d → ¬ ends_with suffix1 n ∧ ¬ ends_with suffix2 n.

(** "A file of that extension exists" as the specification words it: a name
    the directory holds, hidden or not. *)
Definition file_exists (suffix : string) (e : entry) : Prop :=
  ∃ n, n ∈ listing_of e ∧ ends_with suffix n.

(** The path-sorted first of the names a pattern matches in [e]. *)
Definition sorted_first (e : entry) (pat : string) : option string :=
  head (merge_sort py_str_le (os_path_join (entry_path e) <$> glob1 (listing_of e) pat)).

(** The widgets [show_verdict] can put on the page. *)
Definition verdict_widget (x : widget) : Prop :=
  ∃ missing w, screen (show_verdict missing w).2 = screen w ++ [x].

(** A command only reads the world. *)
Definition read_only {A} (m : IO A) : Prop := ∀ w, (m w).2 = w.

(** A command adds widgets that all satisfy [P] and leaves the rest of the
    page as it was. *)
Definition emits {A} (P : widget → Prop) (m : IO A) : Prop :=
  ∀ w, ∃ added, screen (m w).2 = screen w ++ added ∧ Forall P added.

(** A command reads and writes the output root only: its result and the
    root it leaves depend on the root alone, the page and the session stay. *)
Definition by_root {A} (m : IO A) : Prop :=
  ∀ w, screen (m w).2 = screen w ∧ processed_data (m w).2 = processed_data w ∧
       ∀ w', output_root w' = output_root w →
             (m w').1 = (m w).1 ∧ output_root (m w').2 = output_root (m w).2.

(** The world the detector leaves for the locator. *)
Definition after_predict (model_predict : string → list entry → list Results * list entry)
    (source : string) (w : world) : world :=
  World (model_predict source (output_root w)).2 (screen w) (processed_data w).

(** A command only reads the world and raises nothing but OSError. *)
Definition os_only {A} (m : IO A) : Prop :=
  ∀ w, ∃ r, m w = (r, w) ∧ ∀ e, r = Raise e → ∃ path, e = OSError path.

(** The class ids of the first result all have a name. *)
Definition ids_named (results : list Results) : Prop :=
  match results with
  | r0 :: _ =>
      match boxes r0 with
      | Some bx =>
          match cls bx with
          | Some ids => Forall (λ c, is_Some (names r0 !! c)) ids
          | None => True
          end
      | None => True
      end
  | [] => True
  end.

(** The two shapes [process_image] may return. *)
Definition image_shape (r : option string * option (gmap string bool)) : Prop :=
  r = (None, None) ∨
  ∃ path info, r = (Some path, Some info) ∧
               dom info = ({[ "mask"; "helmet" ]} : gset string).

(** ** The rest of the script

    Input widgets (the sidebar radio, the file uploaders) are represented by
    the values they return. *)

Definition blog_post : string :=
"
    ### Construction Site Safety: Key Measures to Protect Your Workforce
    
    In the dynamic environment of a construction site, safety should always be the top priority. Here are some essential measures:
    
    1. **Personal Protective Equipment (PPE):**  
       Always ensure that all personnel are equipped with the necessary PPE such as helmets, gloves, high-visibility vests, and protective footwear.
    
    2. **Site Inspections and Hazard Identification:**  
       Regularly conduct thorough site inspections to identify potential hazards. Implement corrective measures promptly.
    
    3. **Training and Awareness:**  
       Provide regular training sessions on safety practices and emergency procedures. Educate workers about the importance of PPE and how to use it correctly.
    
    4. **Emergency Preparedness:**  
       Establish clear protocols for emergency situations. Ensure that emergency exits, first aid kits, and communication devices are easily accessible.
    
    5. **Regular Maintenance:**  
       Keep all equipment and machinery in good working order with routine maintenance checks to avoid malfunctions that could lead to accidents.
    
    By integrating these measures, construction sites can minimize risks and protect workers, ensuring a safer work environment for everyone involved.
    ".

(** Page "Safety Measures Blog", lines 178-201 *)
Definition blog_page : IO () :=
  st (st_title "Safety Measures Blog");;
  st (st_markdown blog_post).

(** One run of the script, lines 82-201: [page] is what the sidebar radio
    returns, [uploaded] the temporary file of the page's uploader. *)
Definition script (model_predict : string → list entry → list Results * list entry)
    (page : string) (uploaded : option string) : IO () :=
  if bool_decide (page = "Detection (Video)") then video_page model_predict uploaded
  else if bool_decide (page = "Image Detection") then image_page model_predict uploaded
  else if bool_decide (page = "Safety Measures Blog") then blog_page
  else mret ().

(** Streamlit runs the script again at every interaction: the page is drawn
    anew, the output root and the session state are what the previous run
    left (also when it raised). *)
Definition rerun (model_predict : string → list entry → list Results * list entry)
    (w : world) (interaction : string * option string) : world :=
  (script model_predict interaction.1 interaction.2
     (World (output_root w) [] (processed_data w))).2.

Definition session (model_predict : string → list entry → list Results * list entry)
    (interactions : list (string * option string)) (w : world) : world :=
  foldl (rerun model_predict) w interactions.

(** [s.split(sep)] for a separator of one character *)
Fixpoint str_split (sep : ascii) (s : string) : list string :=
  match s with
  | EmptyString => [""]
  | String c s' =>
      if bool_decide (c = sep) then "" :: str_split sep s'
      else match str_split sep s' with
           | [] => [String c ""]
           | x :: xs => String c x :: xs
           end
  end.

(** Line 147, ["." + uploaded_image.name.split('.')[-1]]; [None] stands for
    the IndexError of [[-1]] on an empty list. *)
Definition temp_suffix (uploaded_name : string) : option string :=
  (λ extension, "." +:+ extension) <$> last (str_split "." uploaded_name).

(** Some box of the first result has the class name [label]. *)
Definition labelled (label : string) (results : list Results) : Prop :=
  ∃ r0 rest bx ids c,
    results = r0 :: rest ∧ boxes r0 = Some bx ∧ cls bx = Some ids ∧
    c ∈ ids ∧ names r0 !! c = Some label.

(** A command turns the output root [root] into [f root] and keeps the
    session state. *)
Definition root_effect {A} (f : list entry → list entry) (m : IO A) : Prop :=
  ∀ w, output_root (m w).2 = f (output_root w) ∧ processed_data (m w).2 = processed_data w.

(** The widgets the video page shows for the sample frames. *)
Definition frame_widgets (imgs : list string) (caption : string → string) : list widget :=
  match imgs with
  | [] => [ st_warning "No processed images found to display." ]
  | _ => st_subheader "Sample Processed Images" ::
         ((λ img_file, st_image img_file (Some (caption img_file))) <$> imgs)
  end.

#[export] Instance node_eq_dec : EqDecision node.
Proof. solve_decision. Defined.

#[export] Instance entry_eq_dec : EqDecision entry.
Proof. solve_decision. Defined.

(** ** Sample detectors and worlds *)

(** A detector run that returns [results] and leaves [root'] behind. *)
Definition leaving (root' : list entry) (results : list Results)
  : string → list entry → list Results * list entry :=
  λ _ _, (results, root').

Definition ppe_names : gmap Z string :=
  <[0 := "helmet"]> (<[1 := "mask"]> (<[2 := "vest"]> ∅)).

Definition seen (ids : list Z) : Results := MkResults (Some (MkBoxes (Some ids))) ppe_names.

Definition fresh (root : list entry) : world := World root [] None.

Definition site_root : list entry :=
  [ Entry "predict" 10 (Dir ["b.mp4"; "a.mp4"; "z.jpg"; "c.jpg"; "a.jpg"; "k.jpg"; "x.png"]);
    Entry "predict2" 20 (Dir ["out.avi"; ".hid.mp4"; "p.png"]);
    Entry ".cache" 30 (Dir ["q.mp4"]) ].

(** One run folder, then a newer regular file next to it. *)
Definition stray_file_root : list entry :=
  [ Entry "predict" 10 (Dir ["clip.avi"; "image0.jpg"]);
    Entry "notes.txt" 20 File ].

(** One run folder listing two mp4 files, the later name first. *)
Definition two_videos_root : list entry :=
  [ Entry "predict" 10 (Dir ["b.mp4"; "a.mp4"]) ].

(** One run folder with a video and no still frame. *)
Definition video_only_root : list entry :=
  [ Entry "predict" 10 (Dir ["clip.mp4"]) ].

Definition image_root : list entry :=
  [ Entry "predict" 10 (Dir ["image0.jpg"]) ].

(** One run folder, and beside it a symbolic link whose target is gone. *)
Definition dangling_root : list entry :=
  [ Entry "predict" 10 (Dir ["clip.mp4"]);
    Entry "latest" 0 Broken ].

(** One run folder whose only mp4 name is hidden. *)
Definition hidden_mp4_root : list entry :=
  [ Entry "predict" 10 (Dir [".a.mp4"; "b.avi"]) ].

(** What [process_video] returns on the first folder of [site_root], which
    lists four jpg files. *)
Definition three_frames : video_out :=
  VideoOut "runs/detect/predict/b.mp4"
    [ "runs/detect/predict/a.jpg"; "runs/detect/predict/c.jpg"; "runs/detect/predict/k.jpg" ].

(** A session that already holds a result, on an output root that has
    moved on. *)
Definition earlier_result : video_out := VideoOut "runs/detect/predict/b.mp4" [].

Definition cached_world : world := World site_root [] (Some earlier_result).

(** Two run folders modified at the same time. *)
Definition tie_root : list entry :=
  [ Entry "predict" 10 (Dir ["old.mp4"]);
    Entry "predict2" 10 (Dir ["new.mp4"]) ].

(** A first result with a class id that [ppe_names] lacks. *)
Definition unnamed_results : list Results := [ seen [1; 7; 0] ].

(** * Properties *)

(** ** The embedding at work *)

Example os_path_split_pattern :
  os_path_split "runs/detect/predict/*.mp4" = ("runs/detect/predict", "*.mp4").
Proof. reflexivity. Qed.

Example os_path_split_slashes : os_path_split "a//b" = ("a", "b") ∧ os_path_split "/" = ("/", "").
Proof. split; reflexivity. Qed.

Example fnmatch_samples :
  fnmatch "*.mp4" "clip.mp4" = true ∧ fnmatch "*.mp4" "clip.MP4" = false ∧
  fnmatch "*.mp4" "clip.mp4.part" = false ∧ fnmatch "*" "predict" = true.
Proof. repeat split; reflexivity. Qed.

(** The hidden [.cache] is the most recent entry but [glob] skips it; in
    [predict2] the hidden [.hid.mp4] is skipped too and the avi is taken. *)
Example locate_video_site :
  locate_video (fresh site_root) =
  (Return (Some (VideoOut "runs/detect/predict2/out.avi" ["runs/detect/predict2/p.png"])),
   fresh site_root).
Proof. by vm_compute. Qed.

Example locate_video_first_folder :
  locate_video (fresh (take 1 site_root)) =
  (Return (Some (VideoOut "runs/detect/predict/b.mp4"
                   [ "runs/detect/predict/a.jpg"; "runs/detect/predict/c.jpg";
                     "runs/detect/predict/k.jpg" ])),
   fresh (take 1 site_root)).
Proof. by vm_compute. Qed.

Example locate_image_empty_root : locate_image (fresh []) = (Return None, fresh []).
Proof. reflexivity. Qed.

(** A symbolic link whose target is gone makes [os.path.getmtime] raise,
    though an older run folder holds a video. *)
Example locate_video_dangling :
  locate_video (fresh dangling_root) = (Raise (OSError "runs/detect/latest"), fresh dangling_root).
Proof. by vm_compute. Qed.

(** [glob] returns a sub-directory named [frames.mp4] like any other name;
    the page then fails to open it. *)
Example video_page_directory_named_mp4 :
  (video_page (leaving [Entry "predict" 10 (DirOf [("frames.mp4", false)])] [])
     (Some "upload.mp4") (fresh [])).1 = Raise (OSError "runs/detect/predict/frames.mp4").
Proof. by vm_compute. Qed.

(** ** The monad *)

Lemma bind_Return {A B} (m : IO A) (f : A → IO B) w a w' :
  m w = (Return a, w') → (m ≫= f) w = f a w'.
Proof. intros H. unfold mbind, IO_bind. by rewrite H. Qed.

Lemma bind_Raise {A B} (m : IO A) (f : A → IO B) w e w' :
  m w = (Raise e, w') → (m ≫= f) w = (Raise e, w').
Proof. intros H. unfold mbind, IO_bind. by rewrite H. Qed.

Lemma ret_run {A} (a : A) w : (mret a : IO A) w = (Return a, w).
Proof. done. Qed.

(** ** Paths *)

Lemma all_chars_app p s t : all_chars p (s +:+ t) = all_chars p s && all_chars p t.
Proof. induction s as [|c s IH]; simpl; [done|]. by rewrite IH, andb_assoc. Qed.

Lemma last_char_app s t : t ≠ "" → last_char (s +:+ t) = last_char t.
Proof.
  intros Ht. induction s as [|c s IH]; [done|].
  change (String c s +:+ t) with (String c (s +:+ t)). simpl.
  destruct (s +:+ t) eqn:E; [|by rewrite <- IH].
  destruct s; [by change ("" +:+ t) with t in E | discriminate].
Qed.

Lemma last_char_all p s c : all_chars p s = true → last_char s = Some c → p c = true.
Proof.
  induction s as [|d s IH]; [done|]. simpl. intros [Hd Hs]%andb_true_iff.
  destruct s; [by intros [= <-] | by apply IH].
Qed.

Lemma posix_name_nonempty n : posix_name n = true → n ≠ "".
Proof. unfold posix_name. intros [H _]%andb_true_iff. by apply negb_true_iff, bool_decide_eq_false in H. Qed.

Lemma posix_name_no_slash n : posix_name n = true → all_chars (λ c, negb (is_slash c)) n = true.
Proof. unfold posix_name. by intros [_ H]%andb_true_iff. Qed.

Lemma posix_name_start n : posix_name n = true → startswith_slash n = false.
Proof.
  intros H%posix_name_no_slash. destruct n as [|c n]; [done|]. simpl in *.
  apply andb_true_iff in H as [H _]. by apply negb_true_iff.
Qed.

Lemma posix_name_end s n : posix_name n = true → endswith_slash (s +:+ n) = false.
Proof.
  intros H. unfold endswith_slash. rewrite last_char_app by by apply posix_name_nonempty.
  destruct (last_char n) as [c|] eqn:E; [|done].
  apply negb_true_iff. by eapply (last_char_all _ _ _ (posix_name_no_slash _ H)).
Qed.

Lemma join_plain a b :
  a ≠ "" → endswith_slash a = false → startswith_slash b = false →
  os_path_join a b = a +:+ "/" +:+ b.
Proof.
  intros Ha He Hb. unfold os_path_join. rewrite Hb, He.
  by rewrite bool_decide_eq_false_2.
Qed.

Lemma entry_path_plain e :
  posix_name (e_name e) = true → entry_path e = "runs/detect/" +:+ e_name e.
Proof. intros H. unfold entry_path. by rewrite join_plain by (done || by apply posix_name_start). Qed.

Lemma entry_path_dir e :
  posix_name (e_name e) = true →
  entry_path e ≠ "" ∧ endswith_slash (entry_path e) = false ∧ entry_path e ≠ root_dir.
Proof.
  intros H. rewrite entry_path_plain by done. split_and!.
  - done.
  - by apply posix_name_end.
  - intros E. apply posix_name_nonempty in H. destruct (e_name e); [done|discriminate].
Qed.

Lemma rsplit_no_slash t : all_chars (λ c, negb (is_slash c)) t = true → rsplit_slash t = ("", t).
Proof.
  induction t as [|c t IH]; [done|]. simpl. intros [Hc Ht]%andb_true_iff.
  rewrite IH by done. apply negb_true_iff in Hc. by rewrite Hc.
Qed.

Lemma rsplit_join a t :
  all_chars (λ c, negb (is_slash c)) t = true →
  rsplit_slash (a +:+ "/" +:+ t) = (a +:+ "/", t).
Proof.
  intros Ht. induction a as [|c a IH].
  - change ("" +:+ "/" +:+ t) with (String "/" t). simpl. by rewrite rsplit_no_slash.
  - change (String c a +:+ "/" +:+ t) with (String c (a +:+ "/" +:+ t)). simpl.
    rewrite IH. by destruct a.
Qed.

Lemma rstrip_app_slash a : rstrip_slash (a +:+ "/") = rstrip_slash a.
Proof.
  induction a as [|c a IH]; [done|].
  change (String c a +:+ "/") with (String c (a +:+ "/")). simpl. by rewrite IH.
Qed.

Lemma rstrip_id a : endswith_slash a = false → rstrip_slash a = a.
Proof.
  induction a as [|c a IH]; [done|]. intros H. simpl.
  destruct a as [|d a].
  - simpl. unfold endswith_slash in H. simpl in H. by rewrite H.
  - rewrite IH by done. done.
Qed.

Lemma split_join a t :
  a ≠ "" → endswith_slash a = false → all_chars (λ c, negb (is_slash c)) t = true →
  os_path_split (a +:+ "/" +:+ t) = (a, t).
Proof.
  intros Ha He Ht. unfold os_path_split. rewrite rsplit_join by done.
  rewrite rstrip_app_slash, rstrip_id by done. by destruct a.
Qed.

Lemma basename_join a t :
  a ≠ "" → endswith_slash a = false → posix_name t = true →
  os_path_basename (os_path_join a t) = t.
Proof.
  intros Ha He Ht. unfold os_path_basename.
  rewrite join_plain by (done || by apply posix_name_start).
  by rewrite rsplit_join by by apply posix_name_no_slash.
Qed.

(** ** fnmatch and glob *)

Lemma fnmatch_star pat n :
  fnmatch (String "*" pat) n =
  fnmatch pat n || match n with EmptyString => false | String _ n' => fnmatch (String "*" pat) n' end.
Proof. by destruct n. Qed.

Lemma fnmatch_any n : fnmatch "*" n = true.
Proof.
  induction n as [|c n IH]; [done|]. rewrite fnmatch_star. by rewrite IH, orb_true_r.
Qed.

Lemma fnmatch_literal pat n : literal pat = true → fnmatch pat n = true ↔ n = pat.
Proof.
  revert n. induction pat as [|c pat IH]; intros n.
  - by destruct n.
  - unfold literal. simpl.
    intros [[H1%negb_true_iff H2%negb_true_iff]%andb_true_iff Hp]%andb_true_iff.
    rewrite H1, H2. destruct n as [|d n]; [done|].
    rewrite andb_true_iff, bool_decide_eq_true, (IH n Hp).
    split; [by intros [-> ->] | by intros [= -> ->]].
Qed.

Lemma fnmatch_suffix suffix n :
  literal suffix = true → fnmatch (String "*" suffix) n = true ↔ ends_with suffix n.
Proof.
  intros Hl. induction n as [|c n IH]; rewrite fnmatch_star, orb_true_iff, fnmatch_literal by done.
  - split; [intros [->|?]; [by exists ""|done] | intros [stem E]].
    left. by destruct stem.
  - rewrite IH. split.
    + intros [->|[stem ->]]; [by exists "" | by exists (String c stem)].
    + intros [[|d stem] E]; [by left|]. right. exists stem.
      change (String d stem +:+ suffix) with (String d (stem +:+ suffix)) in E. congruence.
Qed.

Lemma filter_all {A} (f : A → bool) l : (∀ x, f x = true) → List.filter f l = l.
Proof. intros H. induction l as [|x l IH]; simpl; [done|]. by rewrite H, IH. Qed.

Lemma filter_fmap {A B} (f : B → bool) (g : A → B) l :
  List.filter f (g <$> l) = g <$> List.filter (λ x, f (g x)) l.
Proof.
  induction l as [|x l IH]; [done|]. cbn. destruct (f (g x)); cbn; by rewrite IH.
Qed.

Lemma elem_of_filter_bool {A} (f : A → bool) l x : x ∈ List.filter f l ↔ x ∈ l ∧ f x = true.
Proof. rewrite !list_elem_of_In. apply filter_In. Qed.

Lemma glob1_star listed pat :
  glob1 listed (String "*" pat) =
  List.filter (fnmatch (String "*" pat)) (List.filter (λ x, negb (ishidden x)) listed).
Proof. done. Qed.

Lemma elem_of_glob1 listed suffix n :
  literal suffix = true →
  n ∈ glob1 listed (String "*" suffix) ↔ n ∈ listed ∧ ishidden n = false ∧ ends_with suffix n.
Proof.
  intros Hl. rewrite glob1_star, !elem_of_filter_bool, negb_true_iff, fnmatch_suffix by done.
  tauto.
Qed.

Lemma glob1_nil listed suffix :
  literal suffix = true →
  glob1 listed (String "*" suffix) = [] ↔
  ∀ n, n ∈ listed → ishidden n = false → ¬ ends_with suffix n.
Proof.
  intros Hl. split.
  - intros E n Hn Hv He.
    assert (n ∈ glob1 listed (String "*" suffix)) as Hin by by apply elem_of_glob1.
    rewrite E in Hin. by apply not_elem_of_nil in Hin.
  - intros H. destruct (glob1 listed (String "*" suffix)) as [|n l] eqn:E; [done|].
    assert (n ∈ glob1 listed (String "*" suffix)) as Hin by (rewrite E; left).
    apply elem_of_glob1 in Hin as (?&?&?); [|done]. by destruct (H n).
Qed.

(** The first name of [glob1] is the first listed name that qualifies. *)
Lemma glob1_head listed suffix n rest :
  literal suffix = true →
  glob1 listed (String "*" suffix) = n :: rest →
  ∃ before after, listed = before ++ n :: after ∧
    ishidden n = false ∧ ends_with suffix n ∧
    ∀ m, m ∈ before → ¬ (ishidden m = false ∧ ends_with suffix m).
Proof.
  intros Hl. induction listed as [|x listed IH]; [done|].
  rewrite glob1_star. cbn [List.filter].
  destruct (ishidden x) eqn:Hv; cbn [negb List.filter].
  - rewrite <- glob1_star. intros (before & after & -> & ? & ? & Hb)%IH.
    exists (x :: before), after. split_and!; try done.
    intros m [->|Hm]%elem_of_cons; [intros [? _]; congruence | by apply Hb].
  - destruct (fnmatch (String "*" suffix) x) eqn:He.
    + intros [= -> _]. exists [], listed. apply fnmatch_suffix in He; [|done].
      split_and!; try done. intros m Hm. by apply not_elem_of_nil in Hm.
    + rewrite <- glob1_star. intros (before & after & -> & ? & ? & Hb)%IH.
      exists (x :: before), after. split_and!; try done.
      intros m [->|Hm]%elem_of_cons; [|by apply Hb].
      intros [_ Hm%fnmatch_suffix]; [congruence|done].
Qed.

(** ** Looking entries up by path *)

Lemma entry_path_inj e1 e2 :
  posix_name (e_name e1) = true → posix_name (e_name e2) = true →
  entry_path e1 = entry_path e2 → e_name e1 = e_name e2.
Proof.
  intros H1 H2. rewrite !entry_path_plain by done. apply (inj (String.app _)).
Qed.

Lemma wf_root_entry root e : wf_root root → e ∈ root → wf_entry e = true.
Proof. intros [_ H] He. by eapply Forall_forall in H. Qed.

Lemma wf_root_names root : wf_root root → wf_names root.
Proof.
  intros [Hnd Hall]. split; [done|]. eapply Forall_impl; [done|].
  unfold wf_entry. by intros e [? _]%andb_true_iff.
Qed.

Lemma wf_root_statable root : wf_root root → Forall (λ e, statable e = true) root.
Proof.
  intros [_ Hall]. eapply Forall_impl; [done|].
  unfold wf_entry. by intros e [_ ?]%andb_true_iff.
Qed.

Lemma wf_names_entry root e : wf_names root → e ∈ root → named_entry e = true.
Proof. intros [_ H] He. by eapply Forall_forall in H. Qed.

Lemma named_entry_name e : named_entry e = true → posix_name (e_name e) = true.
Proof. unfold named_entry. by intros [[H _]%andb_true_iff _]%andb_true_iff. Qed.

Lemma named_entry_listing e n : named_entry e = true → n ∈ listing_of e → posix_name n = true.
Proof.
  unfold named_entry. intros [_ H]%andb_true_iff Hn.
  rewrite forallb_forall in H. by apply H, list_elem_of_In.
Qed.

Lemma wf_entry_name e : wf_entry e = true → posix_name (e_name e) = true.
Proof. unfold wf_entry. intros [H _]%andb_true_iff. by apply named_entry_name. Qed.

Lemma wf_entry_listing e n : wf_entry e = true → n ∈ listing_of e → posix_name n = true.
Proof. unfold wf_entry. intros [H _]%andb_true_iff. by apply named_entry_listing. Qed.

Lemma stat_entry_names root e : wf_names root → e ∈ root → stat root (entry_path e) = Some e.
Proof.
  unfold stat. intros Hwf He. induction root as [|x root IH]; [by apply not_elem_of_nil in He|].
  destruct Hwf as [Hnd Hall]. rewrite fmap_cons in Hnd.
  apply NoDup_cons in Hnd as [Hnotin Hnd]. apply Forall_cons in Hall as [Hx Hall].
  simpl. case_bool_decide as Hp.
  - f_equal. apply elem_of_cons in He as [->|He]; [done|].
    exfalso. apply Hnotin.
    assert (posix_name (e_name e) = true) as Hpe.
    { apply named_entry_name. by eapply Forall_forall in Hall. }
    rewrite (entry_path_inj x e (named_entry_name _ Hx) Hpe Hp). by apply list_elem_of_fmap_2.
  - apply elem_of_cons in He as [->|He]; [done|]. by apply IH.
Qed.

Lemma stat_entry root e : wf_root root → e ∈ root → stat root (entry_path e) = Some e.
Proof. intros Hwf%wf_root_names. by apply stat_entry_names. Qed.

Lemma scandir_entry root e :
  wf_names root → e ∈ root →
  scandir root (entry_path e) =
  match e_node e with Dir _ | DirOf _ => Some (listing_of e) | File | Broken => None end.
Proof.
  intros Hwf He. unfold scandir.
  destruct (entry_path_dir e) as (_&_&Hne); [by eapply named_entry_name, wf_names_entry|].
  rewrite bool_decide_eq_false_2 by done. by rewrite stat_entry_names.
Qed.

Lemma glob_root w :
  glob_glob "runs/detect/*" w = (Return (entry_path <$> visible_entries (output_root w)), w).
Proof.
  unfold glob_glob. change (os_path_split "runs/detect/*") with (root_dir, "*"). cbv iota beta.
  do 2 f_equal. unfold scandir. rewrite bool_decide_eq_true_2 by done.
  rewrite glob1_star, (filter_all (fnmatch "*")) by apply fnmatch_any.
  unfold visible_entries. rewrite filter_fmap. by rewrite <- list_fmap_compose.
Qed.

Lemma glob_entry_names w e pat :
  wf_names (output_root w) → e ∈ output_root w → posix_name pat = true →
  glob_glob (os_path_join (entry_path e) pat) w =
  (Return (os_path_join (entry_path e) <$> glob1 (listing_of e) pat), w).
Proof.
  intros Hwf He Hp. unfold glob_glob.
  destruct (entry_path_dir e) as (Hne&Hend&_); [by eapply named_entry_name, wf_names_entry|].
  rewrite join_plain by (done || by apply posix_name_start).
  rewrite split_join by (done || by apply posix_name_no_slash).
  rewrite scandir_entry by done. unfold listing_of.
  destruct (e_node e); try done; unfold glob1; by destruct (ishidden pat).
Qed.

Lemma glob_entry w e pat :
  wf_root (output_root w) → e ∈ output_root w → posix_name pat = true →
  glob_glob (os_path_join (entry_path e) pat) w =
  (Return (os_path_join (entry_path e) <$> glob1 (listing_of e) pat), w).
Proof. intros Hwf%wf_root_names. by apply glob_entry_names. Qed.

(** ** The newest entry *)

Lemma newest_from_elem best others : newest_from best others ∈ best :: others.
Proof.
  revert best. induction others as [|e others IH]; intros best; [left|].
  simpl. case_bool_decide.
  - right. apply IH.
  - specialize (IH best). apply elem_of_cons in IH as [->|?]; [left | by do 2 right].
Qed.

Lemma newest_visible root e :
  newest root = Some e → e ∈ root ∧ ishidden (e_name e) = false.
Proof.
  unfold newest. destruct (visible_entries root) as [|x l] eqn:E; [done|].
  intros [= <-]. pose proof (newest_from_elem x l) as H. rewrite <- E in H.
  apply elem_of_filter_bool in H as [? ?%negb_true_iff]. done.
Qed.

Lemma newest_from_ge best others : e_mtime best ≤ e_mtime (newest_from best others).
Proof.
  revert best. induction others as [|x others IH]; intros best; simpl; [lia|].
  case_bool_decide; [|done]. specialize (IH x). lia.
Qed.

(** No entry is newer than the one [newest_from] keeps. *)
Lemma newest_from_max best others e :
  e ∈ best :: others → e_mtime e ≤ e_mtime (newest_from best others).
Proof.
  revert best. induction others as [|x others IH]; intros best.
  - intros ->%list_elem_of_singleton. simpl. lia.
  - simpl. intros [->|[->|He]%elem_of_cons]%elem_of_cons; case_bool_decide.
    + pose proof (newest_from_ge x others). lia.
    + apply newest_from_ge.
    + apply newest_from_ge.
    + pose proof (newest_from_ge best others). lia.
    + apply IH. by right.
    + apply IH. by right.
Qed.

(** [newest] is a visible entry that no visible entry is more recent than. *)
Lemma newest_most_recent root e :
  newest root = Some e →
  e ∈ visible_entries root ∧ ∀ x, x ∈ visible_entries root → e_mtime x ≤ e_mtime e.
Proof.
  unfold newest. destruct (visible_entries root) as [|first others]; [done|].
  intros [= <-]. split; [apply newest_from_elem | apply newest_from_max].
Qed.

Lemma getmtime_entry_names w e :
  wf_names (output_root w) → e ∈ output_root w →
  os_path_getmtime (entry_path e) w =
  (if statable e then Return (e_mtime e) else Raise (OSError (entry_path e)), w).
Proof.
  intros Hwf He. unfold os_path_getmtime. rewrite stat_entry_names by done.
  by destruct (statable e).
Qed.

Lemma getmtime_entry w e :
  wf_root (output_root w) → e ∈ output_root w →
  os_path_getmtime (entry_path e) w = (Return (e_mtime e), w).
Proof.
  intros Hwf He. rewrite getmtime_entry_names by (done || by apply wf_root_names).
  pose proof (wf_root_statable _ Hwf) as Hs. eapply Forall_forall in Hs; [|done]. by rewrite Hs.
Qed.

Lemma max_from_newest_names w best others :
  wf_names (output_root w) → (∀ e, e ∈ others → e ∈ output_root w) →
  Forall (λ e, statable e = true) others →
  max_from os_path_getmtime (entry_path best) (e_mtime best) (entry_path <$> others) w =
  (Return (entry_path (newest_from best others)), w).
Proof.
  intros Hwf. revert best. induction others as [|e others IH]; intros best Hin Hst; [done|].
  apply Forall_cons in Hst as [He Hst]. cbn [fmap list_fmap max_from].
  pose proof (getmtime_entry_names w e Hwf (Hin e ltac:(left))) as Hm. rewrite He in Hm.
  rewrite (bind_Return _ _ _ _ _ Hm).
  simpl. case_bool_decide; apply IH; try done; intros; apply Hin; by right.
Qed.

Lemma py_max_newest_names w first others :
  wf_names (output_root w) → (∀ e, e ∈ first :: others → e ∈ output_root w) →
  Forall (λ e, statable e = true) (first :: others) →
  py_max os_path_getmtime (entry_path first) (entry_path <$> others) w =
  (Return (entry_path (newest_from first others)), w).
Proof.
  intros Hwf Hin [Hf Hst]%Forall_cons. unfold py_max.
  pose proof (getmtime_entry_names w first Hwf (Hin first ltac:(left))) as Hm. rewrite Hf in Hm.
  rewrite (bind_Return _ _ _ _ _ Hm).
  apply max_from_newest_names; [done| |done]. intros. apply Hin. by right.
Qed.

Lemma max_from_newest w best others :
  wf_root (output_root w) → (∀ e, e ∈ others → e ∈ output_root w) →
  max_from os_path_getmtime (entry_path best) (e_mtime best) (entry_path <$> others) w =
  (Return (entry_path (newest_from best others)), w).
Proof.
  intros Hwf Hin. apply max_from_newest_names; [by apply wf_root_names | done |].
  apply Forall_forall. intros e He%Hin.
  pose proof (wf_root_statable _ Hwf) as Hs. by eapply Forall_forall in Hs.
Qed.

Lemma py_max_newest w first others :
  wf_root (output_root w) → (∀ e, e ∈ first :: others → e ∈ output_root w) →
  py_max os_path_getmtime (entry_path first) (entry_path <$> others) w =
  (Return (entry_path (newest_from first others)), w).
Proof.
  intros Hwf Hin. apply py_max_newest_names; [by apply wf_root_names | done |].
  apply Forall_forall. intros e He%Hin.
  pose proof (wf_root_statable _ Hwf) as Hs. by eapply Forall_forall in Hs.
Qed.

(** [max] stops at the first item whose key raises. *)
Lemma max_from_broken w best best_key before x after :
  wf_names (output_root w) → (∀ e, e ∈ before ++ x :: after → e ∈ output_root w) →
  Forall (λ e, statable e = true) before → statable x = false →
  max_from os_path_getmtime best best_key (entry_path <$> before ++ x :: after) w =
  (Raise (OSError (entry_path x)), w).
Proof.
  intros Hwf Hin Hst Hx. revert best best_key.
  induction Hst as [|e before He Hst IH]; intros best best_key.
  - cbn [app fmap list_fmap max_from].
    pose proof (getmtime_entry_names w x Hwf (Hin x ltac:(left))) as Hm. rewrite Hx in Hm.
    by rewrite (bind_Raise _ _ _ _ _ Hm).
  - cbn [app fmap list_fmap max_from].
    pose proof (getmtime_entry_names w e Hwf (Hin e ltac:(left))) as Hm. rewrite He in Hm.
    rewrite (bind_Return _ _ _ _ _ Hm).
    case_bool_decide; apply IH; intros; apply Hin; by right.
Qed.

Lemma py_max_broken w first others before x after :
  wf_names (output_root w) → first :: others = before ++ x :: after →
  (∀ e, e ∈ first :: others → e ∈ output_root w) →
  Forall (λ e, statable e = true) before → statable x = false →
  py_max os_path_getmtime (entry_path first) (entry_path <$> others) w =
  (Raise (OSError (entry_path x)), w).
Proof.
  intros Hwf E Hin Hst Hx. unfold py_max. destruct before as [|b before]; simpl in E.
  - injection E as -> ->.
    pose proof (getmtime_entry_names w x Hwf (Hin x ltac:(left))) as Hm. rewrite Hx in Hm.
    by rewrite (bind_Raise _ _ _ _ _ Hm).
  - injection E as -> ->. apply Forall_cons in Hst as [Hb Hst].
    pose proof (getmtime_entry_names w b Hwf (Hin b ltac:(left))) as Hm. rewrite Hb in Hm.
    rewrite (bind_Return _ _ _ _ _ Hm).
    apply max_from_broken; [done| |done..]. intros. apply Hin. by right.
Qed.

(** ** The locators, computed from the entries *)

Lemma glob_fallback_names w e pat1 pat2 :
  wf_names (output_root w) → e ∈ output_root w → posix_name pat2 = true →
  match os_path_join (entry_path e) <$> glob1 (listing_of e) pat1 with
  | [] => glob_glob (os_path_join (entry_path e) pat2)
  | _ :: _ => mret (os_path_join (entry_path e) <$> glob1 (listing_of e) pat1)
  end w = (Return (os_path_join (entry_path e) <$> preferred e pat1 pat2), w).
Proof.
  intros Hwf He Hp. unfold preferred.
  destruct (glob1 (listing_of e) pat1); [|done]. by apply glob_entry_names.
Qed.

Lemma glob_fallback w e pat1 pat2 :
  wf_root (output_root w) → e ∈ output_root w → posix_name pat2 = true →
  match os_path_join (entry_path e) <$> glob1 (listing_of e) pat1 with
  | [] => glob_glob (os_path_join (entry_path e) pat2)
  | _ :: _ => mret (os_path_join (entry_path e) <$> glob1 (listing_of e) pat1)
  end w = (Return (os_path_join (entry_path e) <$> preferred e pat1 pat2), w).
Proof. intros Hwf%wf_root_names. by apply glob_fallback_names. Qed.

Lemma visible_in_root root e : e ∈ visible_entries root → e ∈ root.
Proof. by intros [? _]%elem_of_filter_bool. Qed.

Lemma locate_video_spec_names w :
  wf_names (output_root w) → Forall (λ e, statable e = true) (visible_entries (output_root w)) →
  locate_video w = (Return (located_video (output_root w)), w).
Proof.
  intros Hwf Hst. unfold locate_video, located_video, newest.
  rewrite (bind_Return _ _ _ _ _ (glob_root w)).
  pose proof (visible_in_root (output_root w)) as Hvis.
  destruct (visible_entries (output_root w)) as [|first others]; [done|].
  cbn [fmap list_fmap].
  rewrite (bind_Return _ _ _ _ _ (py_max_newest_names w first others Hwf Hvis Hst)).
  pose proof (Hvis _ (newest_from_elem first others)) as He.
  set (e := newest_from first others) in *.
  rewrite (bind_Return _ _ _ _ _ (glob_entry_names w e "*.mp4" Hwf He eq_refl)).
  rewrite (bind_Return _ _ _ _ _ (glob_fallback_names w e "*.mp4" "*.avi" Hwf He eq_refl)).
  destruct (preferred e "*.mp4" "*.avi") as [|v vs]; [done|].
  cbn [fmap list_fmap].
  rewrite (bind_Return _ _ _ _ _ (glob_entry_names w e "*.jpg" Hwf He eq_refl)).
  by rewrite (bind_Return _ _ _ _ _ (glob_fallback_names w e "*.jpg" "*.png" Hwf He eq_refl)).
Qed.

Lemma locate_image_spec_names w :
  wf_names (output_root w) → Forall (λ e, statable e = true) (visible_entries (output_root w)) →
  locate_image w = (Return (located_image (output_root w)), w).
Proof.
  intros Hwf Hst. unfold locate_image, located_image, newest.
  rewrite (bind_Return _ _ _ _ _ (glob_root w)).
  pose proof (visible_in_root (output_root w)) as Hvis.
  destruct (visible_entries (output_root w)) as [|first others]; [done|].
  cbn [fmap list_fmap].
  rewrite (bind_Return _ _ _ _ _ (py_max_newest_names w first others Hwf Hvis Hst)).
  pose proof (Hvis _ (newest_from_elem first others)) as He.
  set (e := newest_from first others) in *.
  rewrite (bind_Return _ _ _ _ _ (glob_entry_names w e "*.jpg" Hwf He eq_refl)).
  rewrite (bind_Return _ _ _ _ _ (glob_fallback_names w e "*.jpg" "*.png" Hwf He eq_refl)).
  by destruct (preferred e "*.jpg" "*.png").
Qed.

Lemma wf_root_visible_statable root :
  wf_root root → Forall (λ e, statable e = true) (visible_entries root).
Proof.
  intros Hwf%wf_root_statable. apply Forall_forall. intros e He%visible_in_root.
  by eapply Forall_forall in Hwf.
Qed.

Lemma locate_video_spec w :
  wf_root (output_root w) → locate_video w = (Return (located_video (output_root w)), w).
Proof.
  intros Hwf. apply locate_video_spec_names;
    [by apply wf_root_names | by apply wf_root_visible_statable].
Qed.

Lemma locate_image_spec w :
  wf_root (output_root w) → locate_image w = (Return (located_image (output_root w)), w).
Proof.
  intros Hwf. apply locate_image_spec_names;
    [by apply wf_root_names | by apply wf_root_visible_statable].
Qed.

(** With an entry [os.stat] fails on among the visible ones, both scans raise
    at the first such entry. *)
Lemma locate_broken w before x after :
  wf_names (output_root w) → visible_entries (output_root w) = before ++ x :: after →
  Forall (λ e, statable e = true) before → statable x = false →
  locate_video w = (Raise (OSError (entry_path x)), w) ∧
  locate_image w = (Raise (OSError (entry_path x)), w).
Proof.
  intros Hwf E Hst Hx. unfold locate_video, locate_image.
  rewrite !(bind_Return _ _ _ _ _ (glob_root w)).
  pose proof (visible_in_root (output_root w)) as Hvis.
  destruct (visible_entries (output_root w)) as [|first others].
  { by destruct before. }
  cbn [fmap list_fmap].
  by rewrite !(bind_Raise _ _ _ _ _ (py_max_broken w first others before x after Hwf E Hvis Hst Hx)).
Qed.

(** ** Commands that only read, and commands that only touch the root *)

Lemma read_only_ret {A} (a : A) : read_only (mret a : IO A).
Proof. done. Qed.

Lemma read_only_bind {A B} (m : IO A) (f : A → IO B) :
  read_only m → (∀ a, read_only (f a)) → read_only (m ≫= f).
Proof.
  intros Hm Hf w. unfold mbind, IO_bind. specialize (Hm w).
  destruct (m w) as [[a|e] w']; simpl in *; subst; [apply Hf | done].
Qed.

Lemma read_only_glob pathname : read_only (glob_glob pathname).
Proof. intros w. unfold glob_glob. by destruct (os_path_split pathname). Qed.

Lemma read_only_getmtime path : read_only (os_path_getmtime path).
Proof. intros w. unfold os_path_getmtime. by destruct (stat _ _) as [e|]; [destruct (statable e)|]. Qed.

Lemma read_only_max_from best best_key others :
  read_only (max_from os_path_getmtime best best_key others).
Proof.
  revert best best_key. induction others as [|x others IH]; intros best best_key; [done|].
  apply read_only_bind; [apply read_only_getmtime|]. intros val. by case_bool_decide.
Qed.

Lemma read_only_py_max first others : read_only (py_max os_path_getmtime first others).
Proof.
  apply read_only_bind; [apply read_only_getmtime|]. intros. apply read_only_max_from.
Qed.

Lemma read_only_fallback found pathname :
  read_only (match found with [] => glob_glob pathname | _ :: _ => mret found end).
Proof. destruct found; [apply read_only_glob | done]. Qed.

Lemma read_only_locate_video : read_only locate_video.
Proof.
  apply read_only_bind; [apply read_only_glob|]. intros [|first others]; [done|].
  apply read_only_bind; [apply read_only_py_max|]. intros latest.
  apply read_only_bind; [apply read_only_glob|]. intros found.
  apply read_only_bind; [apply read_only_fallback|]. intros [|v vs]; [done|].
  apply read_only_bind; [apply read_only_glob|]. intros stills.
  apply read_only_bind; [apply read_only_fallback|]. done.
Qed.

Lemma read_only_locate_image : read_only locate_image.
Proof.
  apply read_only_bind; [apply read_only_glob|]. intros [|first others]; [done|].
  apply read_only_bind; [apply read_only_py_max|]. intros latest.
  apply read_only_bind; [apply read_only_glob|]. intros found.
  apply read_only_bind; [apply read_only_fallback|]. by intros [|v vs].
Qed.

(** C5.  The output locator is idempotent: on a given output root, the scan
    of [process_video] (lines 19-37) and that of [process_image] (lines
    53-63) leave the world as they found it, so a second run, with no
    detector invocation in between, returns what the first returned. *)
Theorem locator_idempotent w :
  (locate_video w).2 = w ∧ locate_video (locate_video w).2 = locate_video w ∧
  (locate_image w).2 = w ∧ locate_image (locate_image w).2 = locate_image w.
Proof.
  pose proof (read_only_locate_video w) as Hv.
  pose proof (read_only_locate_image w) as Hi.
  by rewrite Hv, Hi.
Qed.

Lemma by_root_ret {A} (a : A) : by_root (mret a : IO A).
Proof. intros w. by split_and!. Qed.

Lemma by_root_bind {A B} (m : IO A) (f : A → IO B) :
  by_root m → (∀ a, by_root (f a)) → by_root (m ≫= f).
Proof.
  intros Hm Hf w. unfold mbind, IO_bind.
  destruct (Hm w) as (Hs & Hd & Hr). destruct (m w) as [[a|e] w1] eqn:E; simpl in *.
  - destruct (Hf a w1) as (Hs1 & Hd1 & Hr1). split_and!; [congruence..|].
    intros w' Hw'. destruct (Hr w' Hw') as [H1 H2].
    destruct (m w') as [[a'|e'] w1']; simpl in *; [|done].
    injection H1 as ->. by apply Hr1.
  - split_and!; [done..|]. intros w' Hw'. destruct (Hr w' Hw') as [H1 H2].
    destruct (m w') as [[a'|e'] w1']; by simplify_eq/=.
Qed.

Lemma by_root_glob pathname : by_root (glob_glob pathname).
Proof.
  intros w. unfold glob_glob. destruct (os_path_split pathname). simpl.
  split_and!; [done..|]. intros w' Hw'. by rewrite Hw'.
Qed.

Lemma by_root_getmtime path : by_root (os_path_getmtime path).
Proof.
  intros w. unfold os_path_getmtime. split_and!.
  - by destruct (stat (output_root w) path) as [e|]; [destruct (statable e)|].
  - by destruct (stat (output_root w) path) as [e|]; [destruct (statable e)|].
  - intros w' Hw'. rewrite Hw'.
    by destruct (stat (output_root w) path) as [e|]; [destruct (statable e)|].
Qed.

Lemma by_root_max_from best best_key others :
  by_root (max_from os_path_getmtime best best_key others).
Proof.
  revert best best_key. induction others as [|x others IH]; intros best best_key;
    [apply by_root_ret|].
  apply by_root_bind; [apply by_root_getmtime|]. intros val. by case_bool_decide.
Qed.

Lemma by_root_py_max first others : by_root (py_max os_path_getmtime first others).
Proof.
  apply by_root_bind; [apply by_root_getmtime|]. intros. apply by_root_max_from.
Qed.

Lemma by_root_fallback found pathname :
  by_root (match found with [] => glob_glob pathname | _ :: _ => mret found end).
Proof. destruct found; [apply by_root_glob | apply by_root_ret]. Qed.

Lemma by_root_locate_video : by_root locate_video.
Proof.
  apply by_root_bind; [apply by_root_glob|]. intros [|first others]; [apply by_root_ret|].
  apply by_root_bind; [apply by_root_py_max|]. intros latest.
  apply by_root_bind; [apply by_root_glob|]. intros found.
  apply by_root_bind; [apply by_root_fallback|]. intros [|v vs]; [apply by_root_ret|].
  apply by_root_bind; [apply by_root_glob|]. intros stills.
  apply by_root_bind; [apply by_root_fallback|]. intros. apply by_root_ret.
Qed.

Lemma by_root_locate_image : by_root locate_image.
Proof.
  apply by_root_bind; [apply by_root_glob|]. intros [|first others]; [apply by_root_ret|].
  apply by_root_bind; [apply by_root_py_max|]. intros latest.
  apply by_root_bind; [apply by_root_glob|]. intros found.
  apply by_root_bind; [apply by_root_fallback|]. intros [|v vs]; apply by_root_ret.
Qed.

Lemma by_root_raise {A} e : by_root (raise e : IO A).
Proof. intros w. by split_and!. Qed.

Lemma by_root_class_names r ids : by_root (class_names r ids).
Proof.
  induction ids as [|c ids IH]; [apply by_root_ret|]. simpl.
  destruct (names r !! c); [|apply by_root_raise].
  apply by_root_bind; [done|]. intros. apply by_root_ret.
Qed.

Lemma by_root_detect_info results : by_root (detect_info results).
Proof.
  unfold detect_info. destruct results as [|r0 ?]; [apply by_root_ret|].
  destruct (boxes r0) as [bx|]; [|apply by_root_ret].
  destruct (cls bx) as [ids|]; [|apply by_root_ret].
  apply by_root_bind; [apply by_root_class_names|]. intros. apply by_root_ret.
Qed.

Section DetectorFacts.

Context (model_predict : string → list entry → list Results * list entry).

Lemma YOLO_predict_run source w :
  YOLO_predict model_predict source w =
  (Return (model_predict source (output_root w)).1, after_predict model_predict source w).
Proof.
  unfold YOLO_predict, after_predict. by destruct (model_predict source (output_root w)).
Qed.

Lemma by_root_predict source : by_root (YOLO_predict model_predict source).
Proof.
  intros w. rewrite YOLO_predict_run. split_and!; [done..|].
  intros w' Hw'. rewrite YOLO_predict_run. simpl. by rewrite Hw'.
Qed.

Lemma by_root_process_video source : by_root (process_video model_predict source).
Proof.
  apply by_root_bind; [apply by_root_predict|]. intros results.
  apply by_root_bind; [apply by_root_ret|]. intros. apply by_root_locate_video.
Qed.

Lemma by_root_process_image source : by_root (process_image model_predict source).
Proof.
  apply by_root_bind; [apply by_root_predict|]. intros results.
  apply by_root_bind; [apply by_root_ret|]. intros _.
  apply by_root_bind; [apply by_root_locate_image|]. intros [p|]; [|apply by_root_ret].
  apply by_root_bind; [apply by_root_detect_info|]. intros. apply by_root_ret.
Qed.

Lemma process_video_run source w :
  process_video model_predict source w = locate_video (after_predict model_predict source w).
Proof. unfold process_video. by rewrite (bind_Return _ _ _ _ _ (YOLO_predict_run source w)). Qed.

Lemma process_video_spec source w :
  wf_root (output_root (after_predict model_predict source w)) →
  process_video model_predict source w =
  (Return (located_video (output_root (after_predict model_predict source w))),
   after_predict model_predict source w).
Proof. intros Hwf. rewrite process_video_run. by apply locate_video_spec. Qed.

Lemma process_image_run source w :
  process_image model_predict source w =
  (located ← locate_image;
   match located with
   | None => mret (None, None)
   | Some processed_image_path =>
       detection_info ← detect_info (model_predict source (output_root w)).1;
       mret (Some processed_image_path, Some detection_info)
   end) (after_predict model_predict source w).
Proof. unfold process_image. by rewrite (bind_Return _ _ _ _ _ (YOLO_predict_run source w)). Qed.

End DetectorFacts.

(** ** What the processing functions do to the world *)

Lemma read_only_raise {A} e : read_only (raise e : IO A).
Proof. done. Qed.

Lemma read_only_class_names r ids : read_only (class_names r ids).
Proof.
  induction ids as [|c ids IH]; [done|]. simpl.
  destruct (names r !! c); [|apply read_only_raise].
  apply read_only_bind; [done|]. intros. apply read_only_ret.
Qed.

Lemma read_only_detect_info results : read_only (detect_info results).
Proof.
  unfold detect_info. destruct results as [|r0 ?]; [done|].
  destruct (boxes r0) as [bx|]; [|done]. destruct (cls bx) as [ids|]; [|done].
  apply read_only_bind; [apply read_only_class_names|]. intros. apply read_only_ret.
Qed.

Section Worlds.

Context (model_predict : string → list entry → list Results * list entry).

Lemma process_video_world source w :
  (process_video model_predict source w).2 = after_predict model_predict source w.
Proof. rewrite process_video_run. apply read_only_locate_video. Qed.

Lemma process_image_world source w :
  (process_image model_predict source w).2 = after_predict model_predict source w.
Proof.
  rewrite process_image_run. apply read_only_bind; [apply read_only_locate_image|].
  intros [p|]; [|done]. apply read_only_bind; [apply read_only_detect_info|]. done.
Qed.

Lemma process_video_value source w w' :
  output_root w' = output_root w →
  (process_video model_predict source w').1 = (process_video model_predict source w).1.
Proof. intros H. by destruct (by_root_process_video model_predict source w) as (_ & _ & Hr), (Hr w' H). Qed.

Lemma process_image_value source w w' :
  output_root w' = output_root w →
  (process_image model_predict source w').1 = (process_image model_predict source w).1.
Proof. intros H. by destruct (by_root_process_image model_predict source w) as (_ & _ & Hr), (Hr w' H). Qed.

(** What a processing function does on the world a page hands it. *)
Lemma process_video_on source root scr pd w :
  output_root w = root →
  process_video model_predict source (World root scr pd) =
  ((process_video model_predict source w).1, World (model_predict source root).2 scr pd).
Proof.
  intros Hroot.
  pose proof (process_video_value source w (World root scr pd) (eq_sym Hroot)) as Hv.
  pose proof (process_video_world source (World root scr pd)) as Hw.
  destruct (process_video model_predict source (World root scr pd)) as [r w2].
  simpl in Hv, Hw. by subst.
Qed.

Lemma process_image_on source root scr pd w :
  output_root w = root →
  process_image model_predict source (World root scr pd) =
  ((process_image model_predict source w).1, World (model_predict source root).2 scr pd).
Proof.
  intros Hroot.
  pose proof (process_image_value source w (World root scr pd) (eq_sym Hroot)) as Hv.
  pose proof (process_image_world source (World root scr pd)) as Hw.
  destruct (process_image model_predict source (World root scr pd)) as [r w2].
  simpl in Hv, Hw. by subst.
Qed.

End Worlds.

(** ** When nothing is found *)

Lemma preferred_nil e suffix1 suffix2 :
  literal suffix1 = true → literal suffix2 = true →
  preferred e (String "*" suffix1) (String "*" suffix2) = [] ↔
  ∀ n, ¬ lists suffix1 e n ∧ ¬ lists suffix2 e n.
Proof.
  intros H1 H2. unfold preferred, lists.
  destruct (glob1 (listing_of e) (String "*" suffix1)) as [|x l] eqn:E1.
  - rewrite glob1_nil in E1 by done. rewrite glob1_nil by done. split.
    + intros H n. split; intros (?&?&?); [by eapply E1 | by eapply H].
    + intros H n ???. by apply (H n).
  - split; [done|]. intros H. exfalso.
    assert (x ∈ glob1 (listing_of e) (String "*" suffix1)) as Hx by (rewrite E1; left).
    apply elem_of_glob1 in Hx; [|done]. by destruct (H x).
Qed.

Lemma nothing_found_preferred root suffix1 suffix2 :
  literal suffix1 = true → literal suffix2 = true →
  nothing_found root suffix1 suffix2 ↔
  match newest root with
  | None => True
  | Some e => preferred e (String "*" suffix1) (String "*" suffix2) = []
  end.
Proof.
  intros H1 H2. unfold nothing_found, newest.
  destruct (visible_entries root) as [|x l].
  - split; [done | by left].
  - rewrite preferred_nil by done. split.
    + intros [?|(e & [= <-] & He)]; done.
    + intros H. right. eauto.
Qed.

Lemma located_video_None root :
  located_video root = None ↔ nothing_found root ".mp4" ".avi".
Proof.
  rewrite nothing_found_preferred by done. unfold located_video.
  destruct (newest root) as [e|]; [|done].
  by destruct (preferred e "*.mp4" "*.avi").
Qed.

Lemma located_image_None root :
  located_image root = None ↔ nothing_found root ".jpg" ".png".
Proof.
  rewrite nothing_found_preferred by done. unfold located_image.
  destruct (newest root) as [e|]; [|done].
  by destruct (preferred e "*.jpg" "*.png").
Qed.

Lemma first_unstatable l :
  Forall (λ e, statable e = true) l ∨
  ∃ before x after, l = before ++ x :: after ∧
                    Forall (λ e, statable e = true) before ∧ statable x = false.
Proof.
  induction l as [|x l [IH|(before & y & after & -> & Hb & Hy)]].
  - by left.
  - destruct (statable x) eqn:Hx; [left; by constructor|].
    right. by exists [], x, l.
  - destruct (statable x) eqn:Hx.
    + right. exists (x :: before), y, after. split_and!; [done| by constructor |done].
    + right. by exists [], x, (before ++ y :: after).
Qed.

Lemma unstatable_middle before x after :
  statable x = false → ¬ Forall (λ e, statable e = true) (before ++ x :: after).
Proof.
  intros Hx [_ [Hx' _]%Forall_cons]%Forall_app. congruence.
Qed.

(** C3, as the code has it.  On an output root with uniquely named entries
    free of glob metacharacters, [process_video] returns [None] and
    [process_image] returns [(None, None)] exactly when [os.stat] succeeds on
    every visible entry of [runs/detect] and either there is no visible
    entry, or the most recently modified visible entry (a directory or not,
    the first in listing order among equally recent ones) lists no visible
    name ending in a recognized extension.  When [os.stat] succeeds on every
    visible entry [process_video] does not raise; when it fails on one (a
    symbolic link whose target is gone), both functions raise the OSError of
    [os.path.getmtime] for the first such entry, whatever the others hold. *)
Theorem not_found_exactly model_predict source w :
  wf_names (output_root (after_predict model_predict source w)) →
  (process_video model_predict source w = (Return None, after_predict model_predict source w) ↔
   Forall (λ e, statable e = true)
     (visible_entries (output_root (after_predict model_predict source w))) ∧
   nothing_found (output_root (after_predict model_predict source w)) ".mp4" ".avi") ∧
  (process_image model_predict source w =
     (Return (None, None), after_predict model_predict source w) ↔
   Forall (λ e, statable e = true)
     (visible_entries (output_root (after_predict model_predict source w))) ∧
   nothing_found (output_root (after_predict model_predict source w)) ".jpg" ".png") ∧
  (Forall (λ e, statable e = true)
     (visible_entries (output_root (after_predict model_predict source w))) →
   ∃ r, process_video model_predict source w = (Return r, after_predict model_predict source w)) ∧
  (∀ before x after,
     visible_entries (output_root (after_predict model_predict source w)) =
       before ++ x :: after →
     Forall (λ e, statable e = true) before → statable x = false →
     process_video model_predict source w =
       (Raise (OSError (entry_path x)), after_predict model_predict source w) ∧
     process_image model_predict source w =
       (Raise (OSError (entry_path x)), after_predict model_predict source w)).
Proof.
  intros Hwf.
  assert (∀ before x after,
     visible_entries (output_root (after_predict model_predict source w)) =
       before ++ x :: after →
     Forall (λ e, statable e = true) before → statable x = false →
     process_video model_predict source w =
       (Raise (OSError (entry_path x)), after_predict model_predict source w) ∧
     process_image model_predict source w =
       (Raise (OSError (entry_path x)), after_predict model_predict source w)) as Hbroken.
  { intros before x after E Hb Hx.
    destruct (locate_broken _ before x after Hwf E Hb Hx) as [Hv Hi].
    by rewrite process_video_run, process_image_run, (bind_Raise _ _ _ _ _ Hi). }
  destruct (first_unstatable
              (visible_entries (output_root (after_predict model_predict source w))))
    as [Hst|(before & x & after & E & Hb & Hx)].
  - split_and!; [| | |done].
    + rewrite process_video_run, locate_video_spec_names by done.
      rewrite <- located_video_None. split; [intros [= H]; by split | by intros [_ ->]].
    + rewrite process_image_run, (bind_Return _ _ _ _ _ (locate_image_spec_names _ Hwf Hst)).
      rewrite <- located_image_None.
      destruct (located_image _) as [p|]; [|done].
      split; [|by intros [_ ?]]. unfold mbind, IO_bind.
      by destruct (detect_info _ _) as [[d|e] w1].
    + intros _. rewrite process_video_run, locate_video_spec_names by done. eauto.
  - destruct (Hbroken before x after E Hb Hx) as [Hv Hi].
    pose proof (unstatable_middle before x after Hx) as Hnot. rewrite <- E in Hnot.
    split_and!; [| | |exact Hbroken].
    + rewrite Hv. split; [done | by intros [? _]].
    + rewrite Hi. split; [done | by intros [? _]].
    + by intros ?.
Qed.

Lemma wf_site_root : wf_root site_root.
Proof. split; [apply (bool_decide_unpack _); by vm_compute | by repeat constructor]. Defined.

Lemma wf_names_stray_file_root : wf_names stray_file_root.
Proof. split; [apply (bool_decide_unpack _); by vm_compute | by repeat constructor]. Defined.

Lemma wf_names_dangling_root : wf_names dangling_root.
Proof. split; [apply (bool_decide_unpack _); by vm_compute | by repeat constructor]. Defined.

Lemma not_found_exactly_witness :
  process_video (leaving stray_file_root []) "upload.mp4" (fresh []) =
    (Return None, fresh stray_file_root) ∧
  process_video (leaving dangling_root []) "upload.mp4" (fresh []) =
    (Raise (OSError "runs/detect/latest"), fresh dangling_root) ∧
  process_image (leaving dangling_root []) "upload.jpg" (fresh []) =
    (Raise (OSError "runs/detect/latest"), fresh dangling_root).
Proof.
  split.
  - apply (proj1 (not_found_exactly (leaving stray_file_root []) "upload.mp4" (fresh [])
                    wf_names_stray_file_root)).
    split; [by repeat constructor|]. right. exists (Entry "notes.txt" 20 File).
    split; [reflexivity|]. intros n. split; intros (Hn & _); by apply not_elem_of_nil in Hn.
  - split.
    + apply (proj2 (proj2 (proj2 (not_found_exactly (leaving dangling_root []) "upload.mp4"
                                     (fresh []) wf_names_dangling_root)))
               [Entry "predict" 10 (Dir ["clip.mp4"])] (Entry "latest" 0 Broken) []);
        [reflexivity | by repeat constructor | reflexivity].
    + apply (proj2 (proj2 (proj2 (not_found_exactly (leaving dangling_root []) "upload.jpg"
                                     (fresh []) wf_names_dangling_root)))
               [Entry "predict" 10 (Dir ["clip.mp4"])] (Entry "latest" 0 Broken) []);
        [reflexivity | by repeat constructor | reflexivity].
Defined.

(** C3, as the specification words it, fails: with a run folder holding
    [clip.avi] and a newer regular file [notes.txt] beside it, the newest
    entry is the file, so [process_video] returns [None] although the output
    root has a subdirectory and the newest subdirectory holds a video. *)
Lemma stray_file_hides_run_folder :
  ¬ (process_video (leaving stray_file_root []) "upload.mp4" (fresh []) =
       (Return None, fresh stray_file_root) ↔
     no_subdirectory_or_no_media stray_file_root ".mp4" ".avi").
Proof.
  intros [H _]. destruct H as [H|(d & Hd & Hn)]; [by vm_compute | discriminate |].
  injection Hd as <-. destruct (Hn "clip.avi") as [_ Havi]; [by left|].
  apply Havi. by exists "clip".
Qed.

(** ** Which file is selected *)

Lemma glob1_cons x listed pat :
  glob1 (x :: listed) (String "*" pat) =
  if negb (ishidden x) && fnmatch (String "*" pat) x
  then x :: glob1 listed (String "*" pat) else glob1 listed (String "*" pat).
Proof.
  rewrite !glob1_star. cbn [List.filter]. destruct (ishidden x); cbn [negb andb List.filter]; done.
Qed.

Lemma glob1_first listed suffix before n after :
  literal suffix = true →
  listed = before ++ n :: after →
  ishidden n = false → ends_with suffix n →
  (∀ m, m ∈ before → ¬ (ishidden m = false ∧ ends_with suffix m)) →
  ∃ rest, glob1 listed (String "*" suffix) = n :: rest.
Proof.
  intros Hl -> Hv He. induction before as [|x before IH]; intros Hb.
  - simpl. rewrite glob1_cons, Hv. apply fnmatch_suffix in He; [|done]. rewrite He. eauto.
  - cbn [app]. rewrite glob1_cons.
    destruct (ishidden x) eqn:Hx; cbn [negb andb].
    + apply IH. intros m Hm. apply Hb. by right.
    + destruct (fnmatch (String "*" suffix) x) eqn:Hf.
      * apply fnmatch_suffix in Hf; [|done]. destruct (Hb x); [left | done].
      * apply IH. intros m Hm. apply Hb. by right.
Qed.

Lemma preferred_head e suffix1 suffix2 m rest :
  literal suffix1 = true → literal suffix2 = true →
  preferred e (String "*" suffix1) (String "*" suffix2) = m :: rest →
  lists suffix1 e m ∨ (lists suffix2 e m ∧ ∀ n, ¬ lists suffix1 e n).
Proof.
  intros H1 H2. unfold preferred, lists.
  destruct (glob1 (listing_of e) (String "*" suffix1)) as [|x l] eqn:E1.
  - intros E2. right. split.
    + apply elem_of_glob1; [done|]. rewrite E2. left.
    + intros n (?&?&?). rewrite glob1_nil in E1 by done. by eapply E1.
  - intros [= -> ->]. left. apply elem_of_glob1; [done|]. rewrite E1. left.
Qed.

Lemma preferred_first e suffix1 suffix2 n :
  literal suffix1 = true →
  lists suffix1 e n →
  ∃ m rest, preferred e (String "*" suffix1) (String "*" suffix2) = m :: rest ∧ lists suffix1 e m.
Proof.
  intros H1 Hn. unfold preferred.
  destruct (glob1 (listing_of e) (String "*" suffix1)) as [|x l] eqn:E1.
  - rewrite glob1_nil in E1 by done. destruct Hn as (?&?&?). by destruct (E1 n).
  - exists x, l. split; [done|]. apply elem_of_glob1; [done|]. rewrite E1. left.
Qed.

(** C6, as the code has it.  When the newest entry lists several names
    ending in [.mp4], the locator selects the one that comes first in the
    directory's listing order (the order [glob] returns them in); it applies
    no sorting to the video files. *)
Theorem first_listed_video w e before n after :
  wf_root (output_root w) → newest (output_root w) = Some e →
  listing_of e = before ++ n :: after →
  ishidden n = false → ends_with ".mp4" n →
  (∀ m, m ∈ before → ¬ (ishidden m = false ∧ ends_with ".mp4" m)) →
  ∃ out, locate_video w = (Return (Some out), w) ∧
         video out = os_path_join (entry_path e) n.
Proof.
  intros Hwf He Hl Hv Hs Hb. rewrite locate_video_spec by done.
  unfold located_video. rewrite He. unfold preferred.
  destruct (glob1_first (listing_of e) ".mp4" before n after) as [rest ->]; try done.
  eauto.
Qed.

Lemma wf_two_videos_root : wf_root two_videos_root.
Proof. split; [apply (bool_decide_unpack _); by vm_compute | by repeat constructor]. Defined.

Lemma first_listed_video_witness :
  ∃ out, locate_video (fresh two_videos_root) = (Return (Some out), fresh two_videos_root) ∧
         video out = os_path_join (entry_path (Entry "predict" 10 (Dir ["b.mp4"; "a.mp4"]))) "b.mp4".
Proof.
  apply (first_listed_video (fresh two_videos_root) (Entry "predict" 10 (Dir ["b.mp4"; "a.mp4"]))
           [] "b.mp4" ["a.mp4"]).
  - exact wf_two_videos_root.
  - reflexivity.
  - reflexivity.
  - reflexivity.
  - by exists "b".
  - intros m Hm. by apply not_elem_of_nil in Hm.
Defined.

(** C6, as the specification words it, fails: a run folder that lists
    [b.mp4] before [a.mp4] makes the locator return [b.mp4], not the
    path-sorted first [a.mp4]. *)
Lemma two_videos_unsorted_pick :
  ¬ (∀ out, locate_video (fresh two_videos_root) = (Return (Some out), fresh two_videos_root) →
            Some (video out) = sorted_first (Entry "predict" 10 (Dir ["b.mp4"; "a.mp4"])) "*.mp4").
Proof.
  intros H. specialize (H (VideoOut "runs/detect/predict/b.mp4" []) eq_refl).
  vm_compute in H. discriminate.
Qed.

Lemma preferred_fallback e suffix1 suffix2 n :
  literal suffix1 = true → literal suffix2 = true →
  (∀ m, ¬ lists suffix1 e m) → lists suffix2 e n →
  ∃ m rest, preferred e (String "*" suffix1) (String "*" suffix2) = m :: rest ∧
            lists suffix2 e m.
Proof.
  intros H1 H2 Hnone Hn. unfold preferred.
  assert (glob1 (listing_of e) (String "*" suffix1) = []) as ->.
  { apply glob1_nil; [done|]. intros m ? ? ?. by apply (Hnone m). }
  destruct (glob1 (listing_of e) (String "*" suffix2)) as [|x l] eqn:E2.
  - rewrite glob1_nil in E2 by done. destruct Hn as (?&?&?). by destruct (E2 n).
  - exists x, l. split; [done|]. apply elem_of_glob1; [done|]. rewrite E2. left.
Qed.

(** C7, as the code has it.  In the newest entry the locator prefers by
    extension among the visible names (those not starting with a dot): when
    a visible name ending in [.mp4] is listed, the video returned is such a
    name; when none is listed but a visible name ending in [.avi] is, the
    video returned is such an [.avi] name; and a returned video that is not
    a visible [.mp4] name is a visible [.avi] name and no visible [.mp4]
    name is listed.  Likewise [.jpg] before [.png] for the image. *)
Theorem extension_preference w e :
  wf_root (output_root w) → newest (output_root w) = Some e →
  ((∃ n, lists ".mp4" e n) →
     ∃ out m, locate_video w = (Return (Some out), w) ∧
              video out = os_path_join (entry_path e) m ∧ lists ".mp4" e m) ∧
  ((∀ n, ¬ lists ".mp4" e n) → (∃ n, lists ".avi" e n) →
     ∃ out m, locate_video w = (Return (Some out), w) ∧
              video out = os_path_join (entry_path e) m ∧ lists ".avi" e m) ∧
  (∀ out, locate_video w = (Return (Some out), w) →
     ∃ m, video out = os_path_join (entry_path e) m ∧
          (lists ".mp4" e m ∨ (lists ".avi" e m ∧ ∀ n, ¬ lists ".mp4" e n))) ∧
  ((∃ n, lists ".jpg" e n) →
     ∃ m, locate_image w = (Return (Some (os_path_join (entry_path e) m)), w) ∧
          lists ".jpg" e m) ∧
  ((∀ n, ¬ lists ".jpg" e n) → (∃ n, lists ".png" e n) →
     ∃ m, locate_image w = (Return (Some (os_path_join (entry_path e) m)), w) ∧
          lists ".png" e m) ∧
  (∀ p, locate_image w = (Return (Some p), w) →
     ∃ m, p = os_path_join (entry_path e) m ∧
          (lists ".jpg" e m ∨ (lists ".png" e m ∧ ∀ n, ¬ lists ".jpg" e n))).
Proof.
  intros Hwf He. rewrite locate_video_spec, locate_image_spec by done.
  unfold located_video, located_image. rewrite He. split_and!.
  - intros [n Hn].
    destruct (preferred_first e ".mp4" ".avi" n) as (m & rest & -> & Hm); [done..|]. eauto.
  - intros Hnone [n Hn].
    destruct (preferred_fallback e ".mp4" ".avi" n) as (m & rest & -> & Hm); [done..|]. eauto.
  - intros out. destruct (preferred e "*.mp4" "*.avi") as [|m rest] eqn:E; [done|].
    intros [= <-]. exists m. split; [done|]. by eapply (preferred_head e ".mp4" ".avi").
  - intros [n Hn].
    destruct (preferred_first e ".jpg" ".png" n) as (m & rest & -> & Hm); [done..|]. eauto.
  - intros Hnone [n Hn].
    destruct (preferred_fallback e ".jpg" ".png" n) as (m & rest & -> & Hm); [done..|]. eauto.
  - intros p. destruct (preferred e "*.jpg" "*.png") as [|m rest] eqn:E; [done|].
    intros [= <-]. exists m. split; [done|]. by eapply (preferred_head e ".jpg" ".png").
Qed.

(** In [predict2] of [site_root], whose only mp4 name is hidden and which
    lists no jpg, the fallbacks are taken. *)
Lemma extension_preference_witness :
  (∃ out m, locate_video (fresh site_root) = (Return (Some out), fresh site_root) ∧
            video out =
              os_path_join (entry_path (Entry "predict2" 20 (Dir ["out.avi"; ".hid.mp4"; "p.png"]))) m ∧
            lists ".avi" (Entry "predict2" 20 (Dir ["out.avi"; ".hid.mp4"; "p.png"])) m) ∧
  (∃ m, locate_image (fresh site_root) =
          (Return (Some (os_path_join
                           (entry_path (Entry "predict2" 20 (Dir ["out.avi"; ".hid.mp4"; "p.png"]))) m)),
           fresh site_root) ∧
        lists ".png" (Entry "predict2" 20 (Dir ["out.avi"; ".hid.mp4"; "p.png"])) m).
Proof.
  assert (∀ suffix n,
            literal suffix = true →
            fnmatch (String "*" suffix) "out.avi" = false →
            fnmatch (String "*" suffix) "p.png" = false →
            ¬ lists suffix (Entry "predict2" 20 (Dir ["out.avi"; ".hid.mp4"; "p.png"])) n)
    as Hnone.
  { intros suffix n Hl Ha Hp (Hn & Hv & Hs). apply fnmatch_suffix in Hs; [|done].
    apply elem_of_cons in Hn as [->|Hn]; [congruence|].
    apply elem_of_cons in Hn as [->|Hn]; [discriminate|].
    apply elem_of_cons in Hn as [->|Hn]; [congruence|]. by apply not_elem_of_nil in Hn. }
  destruct (extension_preference (fresh site_root)
              (Entry "predict2" 20 (Dir ["out.avi"; ".hid.mp4"; "p.png"]))
              wf_site_root eq_refl) as (_ & Hv & _ & _ & Hi & _).
  split.
  - apply Hv.
    + intros n. by apply Hnone.
    + exists "out.avi". split_and!; [left | reflexivity | by exists "out"].
  - apply Hi.
    + intros n. by apply Hnone.
    + exists "p.png". split_and!; [right; right; left | reflexivity | by exists "p"].
Defined.

(** C7, as the specification words it, fails: a run folder that holds
    [.a.mp4] and [b.avi] holds an mp4 file, yet the locator, which like
    [glob] does not see names starting with a dot, returns [b.avi]. *)
Lemma hidden_mp4_not_preferred :
  ¬ (file_exists ".mp4" (Entry "predict" 10 (Dir [".a.mp4"; "b.avi"])) →
     ∃ out, locate_video (fresh hidden_mp4_root) = (Return (Some out), fresh hidden_mp4_root) ∧
            ends_with ".mp4" (video out)).
Proof.
  intros H. destruct H as (out & Hloc & Hend).
  { exists ".a.mp4". split; [left | by exists ".a"]. }
  vm_compute in Hloc. injection Hloc as <-.
  apply (fnmatch_suffix ".mp4") in Hend; [|done]. by vm_compute in Hend.
Qed.

(** ** The order of [str] *)

Example fsdecode_samples :
  fsdecode "a.jpg" = [97; 46; 106; 112; 103]%N ∧
  fsdecode "é€😀" = [233; 8364; 128512]%N ∧
  fsdecode (String (ascii_of_N 255) ".jpg") = [56575; 46; 106; 112; 103]%N.
Proof. repeat split; reflexivity. Qed.

(** A byte that is no UTF-8 sorts, as a lone surrogate, before U+E000,
    though it is the greater byte. *)
Example py_str_le_not_byte_order :
  py_str_le (String (ascii_of_N 255) ".jpg")
            (String (ascii_of_N 238) (String (ascii_of_N 128) (String (ascii_of_N 128) ".jpg"))) ∧
  ¬ String.le (String (ascii_of_N 255) ".jpg")
              (String (ascii_of_N 238) (String (ascii_of_N 128) (String (ascii_of_N 128) ".jpg"))).
Proof. split; by vm_compute. Qed.

Lemma app_String c s t : String c s +:+ t = String c (s +:+ t).
Proof. reflexivity. Qed.

Lemma is_cont_low c : (N_of_ascii c <? 128)%N = true → is_cont c = false.
Proof. unfold is_cont. intros H%N.ltb_lt. apply andb_false_iff. left. apply N.leb_gt. lia. Qed.

Lemma three_lead_low b0 b1 : (b1 < 128)%N → three_lead b0 b1 = false.
Proof.
  intros H. unfold three_lead. apply not_true_iff_false.
  rewrite !orb_true_iff, !andb_true_iff, !N.leb_le. lia.
Qed.

Lemma four_lead_low b0 b1 : (b1 < 128)%N → four_lead b0 b1 = false.
Proof.
  intros H. unfold four_lead. apply not_true_iff_false.
  rewrite !orb_true_iff, !andb_true_iff, !N.leb_le. lia.
Qed.

Lemma fsdecode_eq c0 r0 :
  fsdecode (String c0 r0) =
      let b0 := N_of_ascii c0 in
      if (b0 <? 128)%N then b0 :: fsdecode r0
      else
        match r0 with
        | EmptyString => (56320 + b0)%N :: fsdecode r0
        | String c1 r1 =>
            let b1 := N_of_ascii c1 in
            if (194 <=? b0)%N && (b0 <=? 223)%N then
              if is_cont c1 then ((b0 - 192) * 64 + (b1 - 128))%N :: fsdecode r1
              else (56320 + b0)%N :: fsdecode r0
            else if three_lead b0 b1 then
              match r1 with
              | String c2 r2 =>
                  if is_cont c2
                  then ((b0 - 224) * 4096 + (b1 - 128) * 64 + (N_of_ascii c2 - 128))%N
                       :: fsdecode r2
                  else (56320 + b0)%N :: fsdecode r0
              | EmptyString => (56320 + b0)%N :: fsdecode r0
              end
            else if four_lead b0 b1 then
              match r1 with
              | String c2 (String c3 r3) =>
                  if is_cont c2 && is_cont c3
                  then ((b0 - 240) * 262144 + (b1 - 128) * 4096 +
                        (N_of_ascii c2 - 128) * 64 + (N_of_ascii c3 - 128))%N
                       :: fsdecode r3
                  else (56320 + b0)%N :: fsdecode r0
              | _ => (56320 + b0)%N :: fsdecode r0
              end
            else (56320 + b0)%N :: fsdecode r0
        end.
Proof. by destruct r0. Qed.

(** An ASCII character ends whatever sequence was begun before it. *)
Lemma fsdecode_low_aux n c : (N_of_ascii c <? 128)%N = true →
  ∀ x, (String.length x ≤ n)%nat → ∀ y,
    fsdecode (x +:+ String c y) = fsdecode x ++ N_of_ascii c :: fsdecode y.
Proof.
  intros Hc. pose proof (is_cont_low c Hc) as Hcont.
  assert (∀ b0, three_lead b0 (N_of_ascii c) = false) as H3
    by (intros; apply three_lead_low; by apply N.ltb_lt).
  assert (∀ b0, four_lead b0 (N_of_ascii c) = false) as H4
    by (intros; apply four_lead_low; by apply N.ltb_lt).
  assert (∀ y, fsdecode (String c y) = N_of_ascii c :: fsdecode y) as Hhead.
  { intros y. rewrite fsdecode_eq. cbv zeta. by rewrite Hc. }
  induction n as [|n IH]; intros x Hx y.
  { destruct x; [apply Hhead | simpl in Hx; lia]. }
  destruct x as [|c0 r0]; [apply Hhead|]. simpl in Hx.
  assert (fsdecode (r0 +:+ String c y) = fsdecode r0 ++ N_of_ascii c :: fsdecode y) as IH0
    by (apply IH; lia).
  rewrite app_String, (fsdecode_eq c0 r0), (fsdecode_eq c0 (r0 +:+ String c y)). cbv zeta.
  destruct (N_of_ascii c0 <? 128)%N; [by rewrite IH0|].
  destruct r0 as [|c1 r1].
  { change ("" +:+ String c y) with (String c y) in *. cbv iota beta.
    rewrite Hcont, H3, H4, IH0. by destruct (_ && _). }
  rewrite app_String in *. simpl in Hx.
  assert (fsdecode (r1 +:+ String c y) = fsdecode r1 ++ N_of_ascii c :: fsdecode y) as IH1
    by (apply IH; lia).
  destruct (_ && _).
  { destruct (is_cont c1); [by rewrite IH1 | by rewrite IH0]. }
  destruct (three_lead _ _).
  { destruct r1 as [|c2 r2].
    - change ("" +:+ String c y) with (String c y) in *. cbv iota beta.
      by rewrite Hcont, IH0.
    - rewrite app_String in *. simpl in Hx. destruct (is_cont c2); [|by rewrite IH0].
      rewrite IH by lia. done. }
  destruct (four_lead _ _); [|by rewrite IH0].
  destruct r1 as [|c2 [|c3 r3]].
  - change ("" +:+ String c y) with (String c y) in *. cbv iota beta.
    rewrite IH0. destruct y; [done|]. by rewrite Hcont.
  - change (String c2 "" +:+ String c y) with (String c2 (String c y)) in *. cbv iota beta.
    rewrite Hcont, andb_false_r. by rewrite IH0.
  - rewrite !app_String in *. simpl in Hx. destruct (_ && _); [|by rewrite IH0].
    rewrite IH by lia. done.
Qed.

Lemma fsdecode_slash x y :
  fsdecode (x +:+ String "/" y) = fsdecode x ++ 47%N :: fsdecode y.
Proof. by apply (fsdecode_low_aux (String.length x) "/"). Qed.

Lemma lex_le_total a b : lex_le a b = true ∨ lex_le b a = true.
Proof.
  revert b. induction a as [|x a IH]; intros [|y b]; simpl; auto.
  destruct (N.lt_total x y) as [H|[->|H]].
  - left. apply orb_true_iff. left. by apply N.ltb_lt.
  - destruct (IH b) as [H|H]; [left|right]; by rewrite N.eqb_refl, H, orb_true_r.
  - right. apply orb_true_iff. left. by apply N.ltb_lt.
Qed.

Lemma lex_le_trans a b c : lex_le a b = true → lex_le b c = true → lex_le a c = true.
Proof.
  revert b c. induction a as [|x a IH]; intros [|y b] [|z c]; simpl; try done.
  rewrite !orb_true_iff, !andb_true_iff, !N.ltb_lt, !N.eqb_eq.
  intros [H1|[-> H1]] [H2|[-> H2]]; [left; lia | by left | by left |].
  right. split; [done|]. by eapply IH.
Qed.

Lemma lex_le_app p a b : lex_le (p ++ a) (p ++ b) = lex_le a b.
Proof.
  induction p as [|x p IH]; [done|]. simpl. by rewrite N.ltb_irrefl, N.eqb_refl, IH.
Qed.

Lemma py_str_le_total : Total py_str_le.
Proof.
  intros a b. unfold py_str_le. destruct (lex_le_total (fsdecode a) (fsdecode b)) as [->| ->]; auto.
Qed.

Lemma py_str_le_trans : Transitive py_str_le.
Proof.
  intros a b c. unfold py_str_le. intros H1%Is_true_true H2%Is_true_true.
  apply Is_true_true. by eapply lex_le_trans.
Qed.

Lemma py_str_le_prefix d n m :
  py_str_le (d +:+ "/" +:+ n) (d +:+ "/" +:+ m) ↔ py_str_le n m.
Proof.
  unfold py_str_le. change ("/" +:+ n) with (String "/" n). change ("/" +:+ m) with (String "/" m).
  by rewrite !fsdecode_slash, lex_le_app.
Qed.

Lemma StronglySorted_fmap_on {A B} (R : relation A) (R' : relation B) (f : A → B) l :
  (∀ x y, x ∈ l → y ∈ l → R x y → R' (f x) (f y)) →
  StronglySorted R l → StronglySorted R' (f <$> l).
Proof.
  intros Hf Hl. induction Hl as [|x l Hl IH Hx]; [constructor|].
  cbn [fmap list_fmap]. constructor.
  - apply IH. intros y z Hy Hz. apply Hf; by right.
  - apply Forall_fmap, Forall_forall. intros y Hy. apply Hf; [left | by right |].
    by eapply Forall_forall in Hx.
Qed.

Lemma StronglySorted_merge_sort_str l : StronglySorted py_str_le (merge_sort py_str_le l).
Proof.
  apply (@StronglySorted_merge_sort _ py_str_le _ py_str_le_trans py_str_le_total).
Qed.

Lemma StronglySorted_take {A} (R : relation A) n l :
  StronglySorted R l → StronglySorted R (take n l).
Proof.
  intros H. rewrite <- (take_drop n l) in H. by apply StronglySorted_app_1_l in H.
Qed.

(** ** Sample frames *)

Lemma glob1_listed listed pat n : n ∈ glob1 listed pat → n ∈ listed.
Proof.
  unfold glob1. intros [Hn _]%elem_of_filter_bool.
  destruct (ishidden pat); [done|]. by apply elem_of_filter_bool in Hn as [? _].
Qed.

Lemma preferred_listed e pat1 pat2 n : n ∈ preferred e pat1 pat2 → n ∈ listing_of e.
Proof.
  unfold preferred. destruct (glob1 _ pat1) eqn:E; [apply glob1_listed|].
  rewrite <- E. apply glob1_listed.
Qed.

Lemma preferred_posix e pat1 pat2 :
  wf_entry e = true → Forall (λ n, posix_name n = true) (preferred e pat1 pat2).
Proof.
  intros He. apply Forall_forall. intros n Hn%preferred_listed. by eapply wf_entry_listing.
Qed.

Lemma entry_join e n :
  wf_entry e = true → posix_name n = true →
  os_path_join (entry_path e) n = entry_path e +:+ "/" +:+ n ∧
  os_path_basename (os_path_join (entry_path e) n) = n.
Proof.
  intros He Hn. destruct (entry_path_dir e) as (Hne & Hend & _); [by apply wf_entry_name|].
  split; [|by apply basename_join]. apply join_plain; [done..|by apply posix_name_start].
Qed.

(** The first three of the sorted paths of the names [l] listed by [e] *)
Lemma sorted_frames e l :
  wf_entry e = true → Forall (λ n, posix_name n = true) l →
  let frames := take 3 (merge_sort py_str_le (os_path_join (entry_path e) <$> l)) in
  (∀ p, p ∈ frames → ∃ n, n ∈ l ∧ p = os_path_join (entry_path e) n) ∧
  StronglySorted py_str_le (os_path_basename <$> frames) ∧
  (∀ p n, p ∈ frames → n ∈ l → os_path_join (entry_path e) n ∉ frames →
          py_str_le (os_path_basename p) n).
Proof.
  intros He Hl. set (sorted := merge_sort py_str_le (os_path_join (entry_path e) <$> l)).
  assert (sorted ≡ₚ os_path_join (entry_path e) <$> l) as Hperm by apply merge_sort_Permutation.
  assert (StronglySorted py_str_le sorted) as Hsorted by apply StronglySorted_merge_sort_str.
  assert (∀ p, p ∈ sorted → ∃ n, n ∈ l ∧ posix_name n = true ∧
                                 p = os_path_join (entry_path e) n) as Hin.
  { intros p Hp. rewrite Hperm in Hp. apply list_elem_of_fmap in Hp as (n & -> & Hn).
    exists n. split_and!; [done| |done]. by eapply Forall_forall in Hl. }
  assert (∀ n m, posix_name n = true → posix_name m = true →
                 py_str_le (os_path_join (entry_path e) n) (os_path_join (entry_path e) m) →
                 py_str_le n m) as Hle.
  { intros n m Hn Hm. destruct (entry_join e n He Hn) as [-> _].
    destruct (entry_join e m He Hm) as [-> _]. apply py_str_le_prefix. }
  cbv zeta. split_and!.
  - intros p Hp%subseteq_take. destruct (Hin p Hp) as (n & ? & _ & ?). eauto.
  - apply StronglySorted_fmap_on with (R := py_str_le); [|by apply StronglySorted_take].
    intros x y Hx%subseteq_take Hy%subseteq_take Hxy.
    destruct (Hin x Hx) as (n & _ & Hn & ->). destruct (Hin y Hy) as (m & _ & Hm & ->).
    destruct (entry_join e n He Hn) as [_ ->]. destruct (entry_join e m He Hm) as [_ ->].
    by apply Hle.
  - intros p n Hp Hn Hout.
    assert (os_path_join (entry_path e) n ∈ drop 3 sorted) as Hdrop.
    { assert (os_path_join (entry_path e) n ∈ sorted) as Hs.
      { rewrite Hperm. by apply list_elem_of_fmap_2. }
      rewrite <- (take_drop 3 sorted) in Hs. by apply elem_of_app in Hs as [?|?]. }
    rewrite <- (take_drop 3 sorted) in Hsorted.
    pose proof (StronglySorted_app_1_elem_of _ _ _ _ _ Hsorted Hp Hdrop) as Hpn.
    destruct (Hin p (subseteq_take _ _ _ Hp)) as (m & _ & Hm & ->).
    destruct (entry_join e m He Hm) as [_ ->]. apply Hle; [done| |done].
    by eapply Forall_forall in Hl.
Qed.

Lemma for_each_st (caption : string → widget) l w :
  for_each l (λ x, st (caption x)) w =
  (Return (), World (output_root w) (screen w ++ (caption <$> l)) (processed_data w)).
Proof.
  revert w. induction l as [|x l IH]; intros [root scr pd].
  - simpl. by rewrite app_nil_r.
  - cbn [for_each]. unfold mbind, IO_bind. cbn [st]. rewrite IH. simpl.
    by rewrite <- app_assoc.
Qed.

(** The page after a first processing that located [out]. *)
Lemma video_page_located model_predict source w out :
  processed_data w = None →
  (process_video model_predict source w).1 = Return (Some out) →
  readable (model_predict source (output_root w)).2 (video out) = true →
  video_page model_predict (Some source) w =
  (Return (),
   World (output_root (after_predict model_predict source w))
     (screen w ++
      [ st_title "PPE Detection on Construction Sites - Video";
        st_write "Upload a video file (mp4 or avi) to detect PPE using the YOLO model.";
        st_subheader "Original Uploaded Video";
        st_video source;
        st_spinner "Processing video, please wait...";
        st_success "Video processed successfully!";
        st_download_button "Download Processed Video" (video out)
          "processed_video.mp4" "video/mp4" ] ++
      match images out with
      | [] => [ st_warning "No processed images found to display." ]
      | imgs => st_subheader "Sample Processed Images" ::
                ((λ img_file, st_image img_file (Some (os_path_basename img_file))) <$> imgs)
      end ++
      [ st_subheader "Recommendations"; st_markdown recommendations ])
     (Some out)).
Proof.
  destruct w as [root scr pd]. simpl. intros -> Hrun Hread.
  unfold video_page, mbind, IO_bind.
  cbn [st output_root screen processed_data get_processed_data].
  rewrite (process_video_on _ _ _ _ _ (World root scr None)) by done. rewrite Hrun.
  cbn [set_processed_data get_processed_data output_root screen processed_data].
  cbn [st output_root screen processed_data].
  unfold open_rb. cbn [output_root]. rewrite Hread.
  cbn [st output_root screen processed_data].
  destruct (images out) as [|img imgs]; cbn [st output_root screen processed_data].
  - unfold st. cbn [output_root screen processed_data].
    repeat rewrite <- app_assoc. done.
  - rewrite for_each_st. unfold st. cbn [output_root screen processed_data].
    repeat rewrite <- app_assoc. done.
Qed.

(** C4.  When [process_video] succeeds on a well-formed output root, the
    sample frames are the first three of the sorted paths of the still
    images selected in the newest entry ([.jpg] names, else [.png] names):
    at most 3 paths, as many as there are stills when these are fewer
    (none when there are none), each the path of a still, sorted by file
    name in the order of [str], every still left out sorting after every
    frame; and a first run of the page that gets an empty list and can read
    the video shows the warning "No processed images found to display." and
    no error. *)
Theorem sample_frames model_predict source w out :
  wf_root (output_root (after_predict model_predict source w)) →
  (process_video model_predict source w).1 = Return (Some out) →
  ∃ e, newest (output_root (after_predict model_predict source w)) = Some e ∧
    (length (images out) ≤ 3)%nat ∧
    length (images out) = Nat.min 3 (length (preferred e "*.jpg" "*.png")) ∧
    (∀ p, p ∈ images out →
          ∃ n, n ∈ preferred e "*.jpg" "*.png" ∧ p = os_path_join (entry_path e) n) ∧
    StronglySorted py_str_le (os_path_basename <$> images out) ∧
    (∀ p n, p ∈ images out → n ∈ preferred e "*.jpg" "*.png" →
            os_path_join (entry_path e) n ∉ images out →
            py_str_le (os_path_basename p) n) ∧
    images out =
      take 3 (merge_sort py_str_le
                (os_path_join (entry_path e) <$> preferred e "*.jpg" "*.png")) ∧
    (images out = [] → processed_data w = None →
     readable (output_root (after_predict model_predict source w)) (video out) = true →
     video_page model_predict (Some source) w =
     (Return (),
      World (output_root (after_predict model_predict source w))
        (screen w ++
         [ st_title "PPE Detection on Construction Sites - Video";
           st_write "Upload a video file (mp4 or avi) to detect PPE using the YOLO model.";
           st_subheader "Original Uploaded Video";
           st_video source;
           st_spinner "Processing video, please wait...";
           st_success "Video processed successfully!";
           st_download_button "Download Processed Video" (video out)
             "processed_video.mp4" "video/mp4";
           st_warning "No processed images found to display.";
           st_subheader "Recommendations";
           st_markdown recommendations ])
        (Some out))).
Proof.
  intros Hwf Hrun. pose proof Hrun as Hloc.
  rewrite process_video_spec in Hloc by done. injection Hloc as Hloc.
  unfold located_video in Hloc.
  destruct (newest _) as [e|] eqn:He; [|done].
  destruct (preferred e "*.mp4" "*.avi") as [|v vs]; [done|]. injection Hloc as Hout.
  assert (wf_entry e = true) as Hwe.
  { apply newest_visible in He as [He _]. by eapply wf_root_entry. }
  pose proof (preferred_posix e "*.jpg" "*.png" Hwe) as Hposix.
  destruct (sorted_frames e _ Hwe Hposix) as (Hin & Hsorted & Hleast).
  assert (images out =
          take 3 (merge_sort py_str_le
                    (os_path_join (entry_path e) <$> preferred e "*.jpg" "*.png"))) as Himg
    by by rewrite <- Hout.
  exists e. rewrite <- Himg in *. split_and!; try done.
  - rewrite Himg, length_take. lia.
  - by rewrite Himg, length_take, merge_sort_Permutation, length_fmap.
  - intros Hnone Hfresh Hread. rewrite (video_page_located _ _ _ _ Hfresh Hrun Hread).
    by rewrite Hnone.
Qed.

Lemma wf_video_only_root : wf_root video_only_root.
Proof. split; [apply (bool_decide_unpack _); by vm_compute | by repeat constructor]. Defined.

Lemma wf_first_folder : wf_root (take 1 site_root).
Proof. split; [apply (bool_decide_unpack _); by vm_compute | by repeat constructor]. Defined.

(** On the first folder of [site_root], four jpg names give three frames;
    on [video_only_root] the empty list gives the warning. *)
Lemma sample_frames_witness :
  (∃ e, newest (take 1 site_root) = Some e ∧
    (length (images three_frames) ≤ 3)%nat ∧
    length (images three_frames) = Nat.min 3 (length (preferred e "*.jpg" "*.png")) ∧
    (∀ p, p ∈ images three_frames →
          ∃ n, n ∈ preferred e "*.jpg" "*.png" ∧ p = os_path_join (entry_path e) n) ∧
    StronglySorted py_str_le (os_path_basename <$> images three_frames) ∧
    (∀ p n, p ∈ images three_frames → n ∈ preferred e "*.jpg" "*.png" →
            os_path_join (entry_path e) n ∉ images three_frames →
            py_str_le (os_path_basename p) n) ∧
    images three_frames =
      take 3 (merge_sort py_str_le
                (os_path_join (entry_path e) <$> preferred e "*.jpg" "*.png"))) ∧
  video_page (leaving video_only_root []) (Some "upload.mp4") (fresh []) =
  (Return (),
   World video_only_root
     [ st_title "PPE Detection on Construction Sites - Video";
       st_write "Upload a video file (mp4 or avi) to detect PPE using the YOLO model.";
       st_subheader "Original Uploaded Video";
       st_video "upload.mp4";
       st_spinner "Processing video, please wait...";
       st_success "Video processed successfully!";
       st_download_button "Download Processed Video" "runs/detect/predict/clip.mp4"
         "processed_video.mp4" "video/mp4";
       st_warning "No processed images found to display.";
       st_subheader "Recommendations";
       st_markdown recommendations ]
     (Some (VideoOut "runs/detect/predict/clip.mp4" []))).
Proof.
  split.
  - destruct (sample_frames (leaving (take 1 site_root) []) "upload.mp4" (fresh [])
                three_frames wf_first_folder eq_refl)
      as (e & He & H1 & H2 & H3 & H4 & H5 & H6 & _).
    exists e. by split_and!.
  - destruct (sample_frames (leaving video_only_root []) "upload.mp4" (fresh [])
                (VideoOut "runs/detect/predict/clip.mp4" []) wf_video_only_root eq_refl)
      as (e & _ & _ & _ & _ & _ & _ & _ & Hpage).
    exact (Hpage eq_refl eq_refl eq_refl).
Defined.

(** ** What the pages put on the screen *)

Lemma emits_ret {A} P (a : A) : emits P (mret a : IO A).
Proof. intros w. exists []. by rewrite app_nil_r. Qed.

Lemma emits_bind {A B} P (m : IO A) (f : A → IO B) :
  emits P m → (∀ a, emits P (f a)) → emits P (m ≫= f).
Proof.
  intros Hm Hf w. unfold mbind, IO_bind. destruct (Hm w) as (l1 & H1 & HP1).
  destruct (m w) as [[a|e] w1]; simpl in *; [|eauto].
  destruct (Hf a w1) as (l2 & H2 & HP2). exists (l1 ++ l2).
  rewrite H2, H1, app_assoc. split; [done | by apply Forall_app].
Qed.

Lemma emits_st (P : widget → Prop) x : P x → emits P (st x).
Proof. intros Hx w. exists [x]. split; [done | by constructor]. Qed.

Lemma emits_by_root {A} P (m : IO A) : by_root m → emits P m.
Proof. intros Hm w. destruct (Hm w) as (Hs & _). exists []. by rewrite Hs, app_nil_r. Qed.

Lemma emits_get P : emits P get_processed_data.
Proof. intros w. exists []. by rewrite app_nil_r. Qed.

Lemma emits_set P d : emits P (set_processed_data d).
Proof. intros w. exists []. by rewrite app_nil_r. Qed.

Lemma emits_open_rb P path : emits P (open_rb path).
Proof.
  intros w. exists []. unfold open_rb. rewrite app_nil_r. by destruct (readable _ _).
Qed.

Lemma emits_for_each (P : widget → Prop) (caption : string → widget) l :
  (∀ x, P (caption x)) → emits P (for_each l (λ x, st (caption x))).
Proof.
  intros HP w. rewrite for_each_st. exists (caption <$> l). split; [done|].
  apply Forall_fmap, Forall_forall. intros x _. apply HP.
Qed.

Lemma verdict_widget_inv x :
  verdict_widget x →
  x = st_success "All required PPE detected!" ∨
  ∃ body, x = st_error (String "W" body).
Proof.
  intros (missing & w & H). destruct missing as [|m ms]; simpl in H.
  - left. apply app_inv_head in H. by injection H.
  - right. apply app_inv_head in H. injection H as <-. eauto.
Qed.

(** C8.  Video mode computes and shows no category verdict: whatever
    results the detector reports, [process_video] returns the same video
    path and sample frames (its result has no other field), and no widget
    the video page puts on the screen is one [show_verdict] produces. *)
Theorem video_mode_no_verdict model_predict uploaded_file :
  (∀ (relabel : list Results → list Results) source w,
     process_video (λ s r, (relabel (model_predict s r).1, (model_predict s r).2)) source w =
     process_video model_predict source w) ∧
  emits (λ x, ¬ verdict_widget x) (video_page model_predict uploaded_file).
Proof.
  split; [intros; by rewrite !process_video_run|].
  assert (∀ x, (x ≠ st_success "All required PPE detected!" ∧ ∀ body, x ≠ st_error (String "W" body)) →
               ¬ verdict_widget x) as Hnot.
  { intros x [H1 H2] [->|[body ->]]%verdict_widget_inv; [done | by eapply H2]. }
  unfold video_page.
  apply emits_bind; [by apply emits_st, Hnot|]. intros _.
  apply emits_bind; [by apply emits_st, Hnot|]. intros _.
  destruct uploaded_file as [tfile_name|]; [|apply emits_ret].
  apply emits_bind; [by apply emits_st, Hnot|]. intros _.
  apply emits_bind; [by apply emits_st, Hnot|]. intros _.
  apply emits_bind; [apply emits_get|]. intros cached.
  apply emits_bind.
  { destruct cached; [apply emits_ret|].
    apply emits_bind; [by apply emits_st, Hnot|]. intros _.
    apply emits_bind; [apply emits_by_root, by_root_process_video|]. intros data.
    apply emits_set. }
  intros _. apply emits_bind; [apply emits_get|]. intros [data|]; [|by apply emits_st, Hnot].
  apply emits_bind; [by apply emits_st, Hnot|]. intros _.
  apply emits_bind; [apply emits_open_rb|]. intros bytes.
  apply emits_bind; [by apply emits_st, Hnot|]. intros _.
  apply emits_bind.
  { destruct (images data) as [|img imgs]; [by apply emits_st, Hnot|].
    apply emits_bind; [by apply emits_st, Hnot|]. intros _.
    apply (emits_for_each _ (λ img_file, st_image img_file (Some (os_path_basename img_file)))).
    intros. by apply Hnot. }
  intros _. apply emits_bind; [by apply emits_st, Hnot|]. intros _.
  by apply emits_st, Hnot.
Qed.

(** ** Detection info *)

Lemma detect_info_head results1 results2 :
  head results1 = head results2 → detect_info results1 = detect_info results2.
Proof. destruct results1, results2; intros H; by simplify_eq/=. Qed.

(** C9.  Only the first result is inspected: the detection info is the
    same for any two result lists with the same first element, so
    [process_image] returns the same flags whatever the later results
    (frames) hold. *)
Theorem first_result_only :
  (∀ r rest rest', detect_info (r :: rest) = detect_info (r :: rest')) ∧
  ∀ predict1 predict2 source w,
    (predict1 source (output_root w)).2 = (predict2 source (output_root w)).2 →
    head (predict1 source (output_root w)).1 = head (predict2 source (output_root w)).1 →
    process_image predict1 source w = process_image predict2 source w.
Proof.
  split; [done|]. intros predict1 predict2 source w Hroot Hhead.
  rewrite !process_image_run. unfold after_predict.
  by rewrite Hroot, (detect_info_head _ _ Hhead).
Qed.

Lemma first_result_only_witness :
  process_image (leaving image_root [seen [0]; seen [1]]) "upload.jpg" (fresh []) =
  process_image (leaving image_root [seen [0]]) "upload.jpg" (fresh []).
Proof.
  apply (proj2 first_result_only
           (leaving image_root [seen [0]; seen [1]]) (leaving image_root [seen [0]])
           "upload.jpg" (fresh [])); reflexivity.
Defined.

(** ** What the locator can raise *)

Lemma os_only_ret {A} (a : A) : os_only (mret a : IO A).
Proof. intros w. by eexists. Qed.

Lemma os_only_bind {A B} (m : IO A) (f : A → IO B) :
  os_only m → (∀ a, os_only (f a)) → os_only (m ≫= f).
Proof.
  intros Hm Hf w. unfold mbind, IO_bind. destruct (Hm w) as (r & -> & Hr).
  destruct r as [a|e]; [apply Hf|]. eexists. split; [done|]. intros e' [= <-]. by apply Hr.
Qed.

Lemma os_only_glob pathname : os_only (glob_glob pathname).
Proof. intros w. unfold glob_glob. destruct (os_path_split pathname). by eexists. Qed.

Lemma os_only_getmtime path : os_only (os_path_getmtime path).
Proof.
  intros w. unfold os_path_getmtime.
  destruct (stat (output_root w) path) as [e|]; [destruct (statable e)|];
    (eexists; split; [done|]); try done; intros e' [= <-]; by eexists.
Qed.

Lemma os_only_max_from best best_key others :
  os_only (max_from os_path_getmtime best best_key others).
Proof.
  revert best best_key. induction others as [|x others IH]; intros best best_key;
    [apply os_only_ret|].
  apply os_only_bind; [apply os_only_getmtime|]. intros val. by case_bool_decide.
Qed.

Lemma os_only_py_max first others : os_only (py_max os_path_getmtime first others).
Proof.
  apply os_only_bind; [apply os_only_getmtime|]. intros. apply os_only_max_from.
Qed.

Lemma os_only_fallback found pathname :
  os_only (match found with [] => glob_glob pathname | _ :: _ => mret found end).
Proof. destruct found; [apply os_only_glob | apply os_only_ret]. Qed.

Lemma os_only_locate_image : os_only locate_image.
Proof.
  apply os_only_bind; [apply os_only_glob|]. intros [|first others]; [apply os_only_ret|].
  apply os_only_bind; [apply os_only_py_max|]. intros latest.
  apply os_only_bind; [apply os_only_glob|]. intros found.
  apply os_only_bind; [apply os_only_fallback|]. intros [|v vs]; apply os_only_ret.
Qed.

Lemma stat_in_root root path e : stat root path = Some e → e ∈ root.
Proof. unfold stat. intros [H _]%find_some. by apply list_elem_of_In. Qed.

Lemma stat_is_Some root e : e ∈ root → is_Some (stat root (entry_path e)).
Proof.
  unfold stat. induction root as [|x root IH]; [by intros ?%not_elem_of_nil|].
  intros He. simpl. case_bool_decide as Hx; [done|].
  apply elem_of_cons in He as [->|He]; [done | by apply IH].
Qed.

Lemma getmtime_total w e :
  Forall (λ e, statable e = true) (output_root w) → e ∈ output_root w →
  ∃ t, os_path_getmtime (entry_path e) w = (Return t, w).
Proof.
  intros Hst [x Hx]%stat_is_Some. unfold os_path_getmtime. rewrite Hx.
  eapply Forall_forall in Hst; [|by eapply stat_in_root]. rewrite Hst. eauto.
Qed.

Lemma max_from_total w best best_key others :
  Forall (λ e, statable e = true) (output_root w) →
  (∀ e, e ∈ others → e ∈ output_root w) →
  ∃ p, max_from os_path_getmtime best best_key (entry_path <$> others) w = (Return p, w).
Proof.
  intros Hst. revert best best_key.
  induction others as [|e others IH]; intros best best_key Hin; [by eexists|].
  cbn [fmap list_fmap max_from].
  destruct (getmtime_total w e Hst) as [t Ht]; [apply Hin; left|].
  rewrite (bind_Return _ _ _ _ _ Ht).
  case_bool_decide; apply IH; intros; apply Hin; by right.
Qed.

Lemma py_max_total w first others :
  Forall (λ e, statable e = true) (output_root w) →
  (∀ e, e ∈ first :: others → e ∈ output_root w) →
  ∃ p, py_max os_path_getmtime (entry_path first) (entry_path <$> others) w = (Return p, w).
Proof.
  intros Hst Hin. unfold py_max.
  destruct (getmtime_total w first Hst) as [t Ht]; [apply Hin; left|].
  rewrite (bind_Return _ _ _ _ _ Ht). apply max_from_total; [done|]. intros. apply Hin. by right.
Qed.

Lemma glob_total pathname w : ∃ found, glob_glob pathname w = (Return found, w).
Proof. unfold glob_glob. destruct (os_path_split pathname). eauto. Qed.

Lemma fallback_total found pathname w :
  ∃ found', match found with [] => glob_glob pathname | _ :: _ => mret found end w =
            (Return found', w).
Proof. destruct found; [apply glob_total | by eexists]. Qed.

(** Where [os.stat] succeeds on every entry the scan returns. *)
Lemma locate_image_total w :
  Forall (λ e, statable e = true) (output_root w) → ∃ r, locate_image w = (Return r, w).
Proof.
  intros Hst. unfold locate_image. rewrite (bind_Return _ _ _ _ _ (glob_root w)).
  pose proof (visible_in_root (output_root w)) as Hvis.
  destruct (visible_entries (output_root w)) as [|first others]; [by eexists|].
  cbn [fmap list_fmap].
  destruct (py_max_total w first others Hst Hvis) as [latest Hl].
  rewrite (bind_Return _ _ _ _ _ Hl).
  destruct (glob_total (os_path_join latest "*.jpg") w) as [found Hf].
  rewrite (bind_Return _ _ _ _ _ Hf).
  destruct (fallback_total found (os_path_join latest "*.png") w) as [found' Hf'].
  rewrite (bind_Return _ _ _ _ _ Hf'). destruct found'; by eexists.
Qed.

Lemma class_names_cases r ids w :
  (∃ ns, class_names r ids w = (Return ns, w)) ∨
  (∃ c, class_names r ids w = (Raise (KeyError (KInt c)), w)).
Proof.
  induction ids as [|c ids IH]; [left; by eexists|]. simpl.
  destruct (names r !! c) as [n|]; [|right; by eexists].
  destruct IH as [[ns Hns]|[c' Hc']].
  - left. rewrite (bind_Return _ _ _ _ _ Hns). by eexists.
  - right. rewrite (bind_Raise _ _ _ _ _ Hc'). by eexists.
Qed.

Lemma class_names_named r ids w :
  Forall (λ c, is_Some (names r !! c)) ids → ∃ ns, class_names r ids w = (Return ns, w).
Proof.
  induction 1 as [|c ids [n Hn] _ [ns Hns]]; [by eexists|]. simpl. rewrite Hn.
  rewrite (bind_Return _ _ _ _ _ Hns). by eexists.
Qed.

Lemma dom_flags (detection_info : gmap string bool) b1 b2 :
  dom detection_info = ({[ "mask"; "helmet" ]} : gset string) →
  dom (if b2 : bool then <["helmet" := true]> (if b1 : bool then <["mask" := true]> detection_info
                                               else detection_info)
       else (if b1 then <["mask" := true]> detection_info else detection_info)) =
  ({[ "mask"; "helmet" ]} : gset string).
Proof. intros H. destruct b1, b2; rewrite ?dom_insert_L, H; set_solver. Qed.

Lemma detect_info_cases results w :
  (∃ info, detect_info results w = (Return info, w) ∧
           dom info = ({[ "mask"; "helmet" ]} : gset string)) ∨
  (∃ c, detect_info results w = (Raise (KeyError (KInt c)), w)).
Proof.
  assert (dom ({[ "mask" := false; "helmet" := false ]} : gmap string bool) =
          ({[ "mask"; "helmet" ]} : gset string)) as Hdom.
  { rewrite dom_insert_L, dom_singleton_L. done. }
  unfold detect_info. destruct results as [|r0 ?]; [left; by eexists|].
  destruct (boxes r0) as [bx|]; [|left; by eexists].
  destruct (cls bx) as [ids|]; [|left; by eexists].
  destruct (class_names_cases r0 ids w) as [[ns Hns]|[c Hc]].
  - left. rewrite (bind_Return _ _ _ _ _ Hns). eexists. split; [done|].
    by apply dom_flags.
  - right. rewrite (bind_Raise _ _ _ _ _ Hc). by eexists.
Qed.

Lemma detect_info_named results w :
  ids_named results → ∃ info, detect_info results w = (Return info, w).
Proof.
  unfold ids_named, detect_info. destruct results as [|r0 ?]; [by eexists|].
  destruct (boxes r0) as [bx|]; [|by eexists].
  destruct (cls bx) as [ids|]; [|by eexists].
  intros [ns Hns]%(class_names_named _ _ w). rewrite (bind_Return _ _ _ _ _ Hns). by eexists.
Qed.

(** What [process_image] does after the detector, by what its scan gives *)
Lemma process_image_cases model_predict source w :
  (∃ p, locate_image (after_predict model_predict source w) =
          (Raise (OSError p), after_predict model_predict source w) ∧
        process_image model_predict source w =
          (Raise (OSError p), after_predict model_predict source w)) ∨
  (locate_image (after_predict model_predict source w) =
     (Return None, after_predict model_predict source w) ∧
   process_image model_predict source w =
     (Return (None, None), after_predict model_predict source w)) ∨
  (∃ path, locate_image (after_predict model_predict source w) =
             (Return (Some path), after_predict model_predict source w) ∧
           process_image model_predict source w =
             (detect_info (model_predict source (output_root w)).1 ≫=
                λ detection_info, mret (Some path, Some detection_info))
               (after_predict model_predict source w)).
Proof.
  rewrite process_image_run.
  destruct (os_only_locate_image (after_predict model_predict source w)) as (r & Hl & Hr).
  destruct r as [[path|]|e].
  - right. right. exists path. by rewrite (bind_Return _ _ _ _ _ Hl).
  - right. left. by rewrite (bind_Return _ _ _ _ _ Hl).
  - left. destruct (Hr e eq_refl) as [p ->]. exists p. by rewrite (bind_Raise _ _ _ _ _ Hl).
Qed.

Lemma process_image_returns model_predict source w v w' :
  process_image model_predict source w = (Return v, w') → image_shape v.
Proof.
  destruct (process_image_cases model_predict source w)
    as [(p & _ & ->)|[[_ ->]|(path & _ & ->)]].
  - done.
  - intros [= <- _]. by left.
  - destruct (detect_info_cases (model_predict source (output_root w)).1
                (after_predict model_predict source w)) as [(info & Hi & Hdom)|[c Hc]].
    + rewrite (bind_Return _ _ _ _ _ Hi). intros [= <- _]. right. by exists path, info.
    + by rewrite (bind_Raise _ _ _ _ _ Hc).
Qed.

(** C10.  [process_image] returns [(None, None)] or a path together with a
    mapping whose keys are exactly "mask" and "helmet" (with boolean
    values), never a path with a missing or differently keyed mapping.  The
    exceptions it can raise are the KeyError of a class id that the first
    result's [names] lacks and the OSError of [os.path.getmtime]; where
    [os.stat] succeeds on every entry of the output root only that KeyError
    is possible, and it returns whenever those ids are named. *)
Theorem process_image_shape model_predict source w :
  (∀ v w', process_image model_predict source w = (Return v, w') → image_shape v) ∧
  (∀ e w', process_image model_predict source w = (Raise e, w') →
           (∃ c, e = KeyError (KInt c)) ∨ (∃ path, e = OSError path)) ∧
  (Forall (λ e, statable e = true) (model_predict source (output_root w)).2 →
   ∀ e w', process_image model_predict source w = (Raise e, w') → ∃ c, e = KeyError (KInt c)) ∧
  (ids_named (model_predict source (output_root w)).1 →
   Forall (λ e, statable e = true) (model_predict source (output_root w)).2 →
   ∃ v w', process_image model_predict source w = (Return v, w')).
Proof.
  split_and!.
  - apply process_image_returns.
  - destruct (process_image_cases model_predict source w)
      as [(p & _ & ->)|[[_ ->]|(path & _ & ->)]].
    + intros e w' [= <- _]. right. by eexists.
    + done.
    + destruct (detect_info_cases (model_predict source (output_root w)).1
                  (after_predict model_predict source w)) as [(info & Hi & Hdom)|[c Hc]].
      * by rewrite (bind_Return _ _ _ _ _ Hi).
      * rewrite (bind_Raise _ _ _ _ _ Hc). intros e w' [= <- _]. left. by eexists.
  - intros Hst.
    destruct (locate_image_total (after_predict model_predict source w) Hst) as [located Hl].
    rewrite process_image_run, (bind_Return _ _ _ _ _ Hl).
    destruct located as [path|]; [|done].
    destruct (detect_info_cases (model_predict source (output_root w)).1
                (after_predict model_predict source w)) as [(info & Hi & Hdom)|[c Hc]].
    + by rewrite (bind_Return _ _ _ _ _ Hi).
    + rewrite (bind_Raise _ _ _ _ _ Hc). intros e w' [= <- _]. by eexists.
  - intros Hnamed Hst.
    destruct (locate_image_total (after_predict model_predict source w) Hst) as [located Hl].
    rewrite process_image_run, (bind_Return _ _ _ _ _ Hl).
    destruct located as [path|]; [|by do 2 eexists].
    destruct (detect_info_named _ (after_predict model_predict source w) Hnamed) as [info Hi].
    rewrite (bind_Return _ _ _ _ _ Hi). by do 2 eexists.
Qed.

Lemma process_image_shape_witness :
  ids_named (leaving image_root [seen [0; 1]] "upload.jpg" []).1 ∧
  Forall (λ e, statable e = true) (leaving image_root [seen [0; 1]] "upload.jpg" []).2 ∧
  ∃ v w', process_image (leaving image_root [seen [0; 1]]) "upload.jpg" (fresh []) = (Return v, w').
Proof.
  assert (ids_named (leaving image_root [seen [0; 1]] "upload.jpg" []).1) as H.
  { constructor; [exists "helmet"; by vm_compute|].
    constructor; [exists "mask"; by vm_compute|]. constructor. }
  assert (Forall (λ e, statable e = true) (leaving image_root [seen [0; 1]] "upload.jpg" []).2)
    as Hst by by repeat constructor.
  split_and!; [exact H | exact Hst |].
  exact (proj2 (proj2 (proj2 (process_image_shape (leaving image_root [seen [0; 1]]) "upload.jpg"
                                (fresh [])))) H Hst).
Defined.

(** ** The image page *)

Lemma flags_lookup (info : gmap string bool) :
  dom info = ({[ "mask"; "helmet" ]} : gset string) →
  (∃ b, info !! "mask" = Some b) ∧ info !! "Hardhat" = None.
Proof.
  intros Hdom. split.
  - apply (elem_of_dom info "mask"). rewrite Hdom. set_solver.
  - apply (not_elem_of_dom info "Hardhat"). rewrite Hdom.
    rewrite elem_of_union, !elem_of_singleton. by intros [?|?].
Qed.

(** C2.  Whenever the image was processed (the page's test
    [if processed_img:] holds for what [process_image] returned), the
    page's lookup [detection_info["Hardhat"]] raises KeyError: the mapping
    has only the keys "mask" and "helmet".  The page stops there, after the
    detected image and before any verdict, so the absent key is never
    read as a present category. *)
Theorem hardhat_lookup_raises model_predict source w path info :
  (process_image model_predict source w).1 = Return (Some path, info) → path ≠ "" →
  ∃ w', image_page model_predict (Some source) w = (Raise (KeyError (KStr "Hardhat")), w') ∧
        screen w' =
        screen w ++
        [ st_title "🦺 PPE Detection System - Image";
          st_write "Upload an image file (jpg or png) to detect PPE using the YOLO model.";
          st_markdown "<h4>📸 Uploaded Image:</h4>";
          st_image source None;
          st_spinner "Processing image, please wait...";
          st_markdown "<h4>🔍 Detected Results:</h4>";
          st_image path None ].
Proof.
  destruct w as [root scr pd]. intros Hrun Hpath.
  unfold image_page, mbind, IO_bind. cbn [st output_root screen processed_data].
  match goal with
  | |- context [process_image model_predict source ?W] => set (w1 := W)
  end.
  destruct (by_root_process_image model_predict source (World root scr pd)) as (_ & _ & Hr).
  destruct (Hr w1 eq_refl) as [Hv _]. rewrite Hrun in Hv.
  destruct (by_root_process_image model_predict source w1) as (Hscr & _ & _).
  destruct (process_image model_predict source w1) as [[v|e] w2] eqn:E; [|done].
  simpl in Hv, Hscr. injection Hv as ->.
  destruct (process_image_returns model_predict source w1 _ _ E)
    as [[=]|(path' & d & [= <- ->] & Hdom)].
  destruct (flags_lookup d Hdom) as [[b Hb] Hnone].
  destruct path as [|c path]; [done|].
  cbn [st output_root screen processed_data getitem]. rewrite Hb, Hnone.
  unfold raise. cbn [output_root screen processed_data]. eexists. split; [done|].
  cbn [screen]. rewrite Hscr. unfold w1. cbn [screen]. by repeat rewrite <- app_assoc.
Qed.

Lemma hardhat_lookup_raises_witness :
  ∃ w', image_page (leaving image_root [seen [0; 1]]) (Some "upload.jpg") (fresh []) =
          (Raise (KeyError (KStr "Hardhat")), w') ∧
        screen w' =
        screen (fresh []) ++
        [ st_title "🦺 PPE Detection System - Image";
          st_write "Upload an image file (jpg or png) to detect PPE using the YOLO model.";
          st_markdown "<h4>📸 Uploaded Image:</h4>";
          st_image "upload.jpg" None;
          st_spinner "Processing image, please wait...";
          st_markdown "<h4>🔍 Detected Results:</h4>";
          st_image "runs/detect/predict/image0.jpg" None ].
Proof.
  apply (hardhat_lookup_raises (leaving image_root [seen [0; 1]]) "upload.jpg" (fresh [])
           "runs/detect/predict/image0.jpg"
           (Some (<["helmet" := true]> (<["mask" := true]> {[ "mask" := false; "helmet" := false ]})))).
  - by vm_compute.
  - discriminate.
Defined.

(** C1.  The code does not render the verdict the claim describes.  For an
    image in which both a mask and a helmet are detected, [process_image]
    returns both flags set, and the page then raises KeyError on
    [detection_info["Hardhat"]]: neither "All required PPE detected!" nor
    any warning is shown. *)
Theorem verdict_never_rendered :
  (∃ info, (process_image (leaving image_root [seen [0; 1]]) "upload.jpg" (fresh [])).1 =
             Return (Some "runs/detect/predict/image0.jpg", Some info) ∧
           info !! "mask" = Some true ∧ info !! "helmet" = Some true) ∧
  image_page (leaving image_root [seen [0; 1]]) (Some "upload.jpg") (fresh []) =
  (Raise (KeyError (KStr "Hardhat")),
   World image_root
     [ st_title "🦺 PPE Detection System - Image";
       st_write "Upload an image file (jpg or png) to detect PPE using the YOLO model.";
       st_markdown "<h4>📸 Uploaded Image:</h4>";
       st_image "upload.jpg" None;
       st_spinner "Processing image, please wait...";
       st_markdown "<h4>🔍 Detected Results:</h4>";
       st_image "runs/detect/predict/image0.jpg" None ]
     None).
Proof.
  split; [|by vm_compute].
  eexists. split; [by vm_compute|]. split; by vm_compute.
Qed.

(** * Beyond the locator: the pages, the session and the detection info *)


(** ** The video page and the session *)

(** X1.  With a result already in the session the video page does not run
    the detector, whatever file is uploaded: it offers the stored video for
    download and shows the stored frames, or, when that video can no longer
    be read, raises OSError right after "Video processed successfully!".
    The output root and the session are left as they were. *)
Theorem video_page_cached model_predict source w data :
  processed_data w = Some data →
  video_page model_predict (Some source) w =
  if readable (output_root w) (video data) then
    (Return (),
     World (output_root w)
       (screen w ++
        [ st_title "PPE Detection on Construction Sites - Video";
          st_write "Upload a video file (mp4 or avi) to detect PPE using the YOLO model.";
          st_subheader "Original Uploaded Video";
          st_video source;
          st_success "Video processed successfully!";
          st_download_button "Download Processed Video" (video data)
            "processed_video.mp4" "video/mp4" ] ++
        frame_widgets (images data) os_path_basename ++
        [ st_subheader "Recommendations"; st_markdown recommendations ])
       (Some data))
  else
    (Raise (OSError (video data)),
     World (output_root w)
       (screen w ++
        [ st_title "PPE Detection on Construction Sites - Video";
          st_write "Upload a video file (mp4 or avi) to detect PPE using the YOLO model.";
          st_subheader "Original Uploaded Video";
          st_video source;
          st_success "Video processed successfully!" ])
       (Some data)).
Proof.
  destruct w as [root scr pd]. simpl. intros ->.
  unfold video_page, mbind, IO_bind.
  cbn [st mret IO_ret output_root screen processed_data get_processed_data].
  unfold open_rb. cbn [output_root]. destruct (readable root (video data)).
  - unfold frame_widgets. destruct (images data) as [|img imgs].
    + unfold st. cbn [output_root screen processed_data]. by repeat rewrite <- app_assoc.
    + cbn [st output_root screen processed_data]. rewrite for_each_st. unfold st.
      cbn [output_root screen processed_data]. by repeat rewrite <- app_assoc.
  - by repeat rewrite <- app_assoc.
Qed.

Lemma video_page_cached_witness :
  video_page (leaving [] []) (Some "second.avi") cached_world =
  (Return (),
   World site_root
     [ st_title "PPE Detection on Construction Sites - Video";
       st_write "Upload a video file (mp4 or avi) to detect PPE using the YOLO model.";
       st_subheader "Original Uploaded Video";
       st_video "second.avi";
       st_success "Video processed successfully!";
       st_download_button "Download Processed Video" "runs/detect/predict/b.mp4"
         "processed_video.mp4" "video/mp4";
       st_warning "No processed images found to display.";
       st_subheader "Recommendations"; st_markdown recommendations ]
     (Some earlier_result)).
Proof.
  exact (video_page_cached (leaving [] []) "second.avi" cached_world earlier_result eq_refl).
Defined.

(** X2.  When the first processing of a session locates no video, the page
    shows "Error: Could not locate the processed video. Please try again."
    and returns; the session still holds no result, so the next run of the
    page invokes the detector again. *)
Theorem video_page_not_located model_predict source w :
  processed_data w = None →
  (process_video model_predict source w).1 = Return None →
  video_page model_predict (Some source) w =
  (Return (),
   World (model_predict source (output_root w)).2
     (screen w ++
      [ st_title "PPE Detection on Construction Sites - Video";
        st_write "Upload a video file (mp4 or avi) to detect PPE using the YOLO model.";
        st_subheader "Original Uploaded Video";
        st_video source;
        st_spinner "Processing video, please wait...";
        st_error "Error: Could not locate the processed video. Please try again." ])
     None).
Proof.
  destruct w as [root scr pd]. simpl. intros -> Hrun.
  unfold video_page, mbind, IO_bind.
  cbn [st mret IO_ret output_root screen processed_data get_processed_data].
  rewrite (process_video_on _ _ _ _ _ (World root scr None)) by done. rewrite Hrun.
  cbn [st set_processed_data get_processed_data output_root screen processed_data].
  unfold st. cbn [output_root screen processed_data]. by repeat rewrite <- app_assoc.
Qed.

Lemma video_page_not_located_witness :
  video_page (leaving stray_file_root []) (Some "upload.mp4") (fresh []) =
  (Return (),
   World stray_file_root
     [ st_title "PPE Detection on Construction Sites - Video";
       st_write "Upload a video file (mp4 or avi) to detect PPE using the YOLO model.";
       st_subheader "Original Uploaded Video";
       st_video "upload.mp4";
       st_spinner "Processing video, please wait...";
       st_error "Error: Could not locate the processed video. Please try again." ]
     None).
Proof.
  apply (video_page_not_located (leaving stray_file_root []) "upload.mp4" (fresh []));
    reflexivity.
Defined.

Lemma root_effect_ret {A} (a : A) : root_effect id (mret a : IO A).
Proof. done. Qed.

Lemma root_effect_raise {A} e : root_effect id (raise e : IO A).
Proof. done. Qed.

Lemma root_effect_st x : root_effect id (st x).
Proof. done. Qed.

Lemma root_effect_bind {A B} f (m : IO A) (k : A → IO B) :
  root_effect f m → (∀ a, root_effect id (k a)) → root_effect f (m ≫= k).
Proof.
  intros Hm Hk w. unfold mbind, IO_bind. destruct (Hm w) as [Hr Hd].
  destruct (m w) as [[a|e] w1]; simpl in *; [|done].
  destruct (Hk a w1) as [Hr1 Hd1]. simpl in Hr1. by rewrite Hr1, Hd1.
Qed.

Lemma root_effect_after {A B} f (m : IO A) (k : A → IO B) :
  root_effect id m → (∀ w, ∃ a w', m w = (Return a, w')) →
  (∀ a, root_effect f (k a)) → root_effect f (m ≫= k).
Proof.
  intros Hm Hret Hk w. unfold mbind, IO_bind. destruct (Hm w) as [Hr Hd].
  destruct (Hret w) as (a & w1 & E). rewrite E in *. simpl in *.
  destruct (Hk a w1) as [Hr1 Hd1]. by rewrite Hr1, Hd1, Hr, Hd.
Qed.

Lemma root_effect_st_then {B} f x (k : IO B) :
  root_effect f k → root_effect f (st x ≫= λ _, k).
Proof.
  intros Hk. apply root_effect_after; [apply root_effect_st | by eexists _, _ | done].
Qed.

Lemma root_effect_getitem d k : root_effect id (getitem d k).
Proof.
  unfold getitem. destruct d as [m|]; [|apply root_effect_raise].
  destruct (m !! k); [apply root_effect_ret | apply root_effect_raise].
Qed.

Lemma root_effect_show_verdict missing : root_effect id (show_verdict missing).
Proof. destruct missing; apply root_effect_st. Qed.

Lemma root_effect_process_image model_predict source :
  root_effect (λ root, (model_predict source root).2) (process_image model_predict source).
Proof. intros w. by rewrite process_image_world. Qed.

Lemma root_effect_image_page model_predict uploaded :
  root_effect
    match uploaded with
    | Some source => λ root, (model_predict source root).2
    | None => id
    end
    (image_page model_predict uploaded).
Proof.
  unfold image_page. do 2 apply root_effect_st_then.
  destruct uploaded as [source|]; [|apply root_effect_ret].
  do 3 apply root_effect_st_then.
  apply root_effect_bind; [apply root_effect_process_image|].
  intros [[[|c path]|] info]; try apply root_effect_st.
  apply root_effect_bind; [apply root_effect_st|]. intros _.
  apply root_effect_bind; [apply root_effect_st|]. intros _.
  apply root_effect_bind; [apply root_effect_getitem|]. intros mask.
  apply root_effect_bind; [apply root_effect_getitem|]. intros hardhat.
  apply root_effect_show_verdict.
Qed.

Lemma root_effect_video_page_cached model_predict uploaded w data :
  processed_data w = Some data →
  output_root (video_page model_predict uploaded w).2 = output_root w ∧
  processed_data (video_page model_predict uploaded w).2 = Some data.
Proof.
  destruct w as [root scr pd]. simpl. intros ->.
  unfold video_page, mbind, IO_bind.
  cbn [st mret IO_ret output_root screen processed_data get_processed_data].
  destruct uploaded as [source|]; [|done].
  cbn [st mret IO_ret output_root screen processed_data get_processed_data].
  unfold open_rb. cbn [output_root]. destruct (readable root (video data)); [|done].
  cbn [st output_root screen processed_data].
  destruct (images data) as [|img imgs]; [done|].
  cbn [st output_root screen processed_data]. by rewrite for_each_st.
Qed.

(** X3.  Once the session holds a result it holds that same result after
    any sequence of interactions, on any page, with any uploads and any
    outcome of each run; and as long as the image page is not used, the
    output root stays as it was: the detector is not invoked for any later
    video upload. *)
Theorem session_keeps_first_result model_predict interactions w data :
  processed_data w = Some data →
  processed_data (session model_predict interactions w) = Some data ∧
  ((∀ i, i ∈ interactions → i.1 ≠ "Image Detection") →
   output_root (session model_predict interactions w) = output_root w).
Proof.
  unfold session. revert w. induction interactions as [|[page uploaded] rest IH]; intros w Hd; [done|].
  cbn [foldl].
  assert (processed_data (rerun model_predict w (page, uploaded)) = Some data ∧
          (page ≠ "Image Detection" →
           output_root (rerun model_predict w (page, uploaded)) = output_root w)) as [Hd' Hr'].
  { unfold rerun, script. cbn [fst snd]. repeat case_bool_decide.
    - split; [|intros _];
        by apply (root_effect_video_page_cached model_predict uploaded (World _ [] _) data).
    - split; [|done].
      destruct (root_effect_image_page model_predict uploaded (World (output_root w) [] (processed_data w)))
        as [_ ->]. done.
    - done.
    - done. }
  destruct (IH _ Hd') as [IH1 IH2]. split; [done|].
  intros Hpages. rewrite IH2, Hr'; [done| |].
  - apply (Hpages (page, uploaded)). left.
  - intros i Hi. apply Hpages. by right.
Qed.

Lemma session_keeps_first_result_witness :
  processed_data
    (session (leaving video_only_root [])
       [ ("Safety Measures Blog", None); ("Image Detection", Some "photo.jpg");
         ("Detection (Video)", Some "second.mp4") ]
       cached_world) = Some earlier_result.
Proof.
  exact (proj1 (session_keeps_first_result (leaving video_only_root [])
                  [ ("Safety Measures Blog", None); ("Image Detection", Some "photo.jpg");
                    ("Detection (Video)", Some "second.mp4") ]
                  cached_world earlier_result eq_refl)).
Defined.

(** ** The image page *)

(** X4.  When [process_image] returns no path, the image page shows
    "Error: Could not process the image. Please try again." after the
    uploaded image and returns normally, without looking at the detection
    info. *)
Theorem image_page_not_processed model_predict source w info :
  (process_image model_predict source w).1 = Return (None, info) →
  image_page model_predict (Some source) w =
  (Return (),
   World (model_predict source (output_root w)).2
     (screen w ++
      [ st_title "🦺 PPE Detection System - Image";
        st_write "Upload an image file (jpg or png) to detect PPE using the YOLO model.";
        st_markdown "<h4>📸 Uploaded Image:</h4>";
        st_image source None;
        st_spinner "Processing image, please wait...";
        st_error "Error: Could not process the image. Please try again." ])
     (processed_data w)).
Proof.
  destruct w as [root scr pd]. intros Hrun.
  unfold image_page, mbind, IO_bind. cbn [st output_root screen processed_data].
  rewrite (process_image_on _ _ _ _ _ (World root scr pd)) by done. rewrite Hrun.
  unfold st. cbn [output_root screen processed_data]. by repeat rewrite <- app_assoc.
Qed.

Lemma image_page_not_processed_witness :
  image_page (leaving video_only_root [seen [0]]) (Some "photo.jpg") (fresh []) =
  (Return (),
   World video_only_root
     [ st_title "🦺 PPE Detection System - Image";
       st_write "Upload an image file (jpg or png) to detect PPE using the YOLO model.";
       st_markdown "<h4>📸 Uploaded Image:</h4>";
       st_image "photo.jpg" None;
       st_spinner "Processing image, please wait...";
       st_error "Error: Could not process the image. Please try again." ]
     None).
Proof.
  apply (image_page_not_processed (leaving video_only_root [seen [0]]) "photo.jpg" (fresh []) None).
  reflexivity.
Defined.

(** X5.  The image page caches nothing: every run with an uploaded file
    invokes the detector, and the output root it leaves is the one the
    detector left, whether the page then shows the error, raises, or shows a
    verdict; without an upload the output root is untouched.  The session
    state is never changed by this page. *)
Theorem image_page_runs_detector model_predict uploaded w :
  output_root (image_page model_predict uploaded w).2 =
    match uploaded with
    | Some source => (model_predict source (output_root w)).2
    | None => output_root w
    end ∧
  processed_data (image_page model_predict uploaded w).2 = processed_data w.
Proof.
  destruct (root_effect_image_page model_predict uploaded w) as [Hr Hd].
  split; [|done]. rewrite Hr. by destruct uploaded.
Qed.

(** ** What the detection info says *)

Lemma class_names_labels r ids w ns :
  (class_names r ids w).1 = Return ns →
  ∀ label, label ∈ ns ↔ ∃ c, c ∈ ids ∧ names r !! c = Some label.
Proof.
  revert ns. induction ids as [|c ids IH]; intros ns.
  - intros [= <-] label. split; [by intros ?%not_elem_of_nil|].
    by intros (? & ?%not_elem_of_nil & _).
  - simpl. destruct (names r !! c) as [n|] eqn:Hn; [|done].
    unfold mbind, IO_bind. destruct (class_names r ids w) as [[ns'|e] w1]; [|done].
    intros [= <-] label. rewrite elem_of_cons, (IH ns' eq_refl). split.
    + intros [->|(c' & Hc' & Hl)]; [exists c; split; [left | done]|].
      exists c'. split; [by right | done].
    + intros (c' & [->|Hc']%elem_of_cons & Hl); [left; congruence|].
      right. by exists c'.
Qed.

Lemma not_labelled_nil label : ¬ labelled label [].
Proof. by intros (?&?&?&?&?&?&_). Qed.

(** X6.  Whenever [detect_info] returns, the mapping it returns is
    {"mask": m, "helmet": h} where m (h) is True exactly when some box of
    the first result has the class name "mask" ("helmet"), compared as the
    exact string; with no result, no boxes or no class tensor both are
    False. *)
Theorem flags_mean_labels results w info w' :
  detect_info results w = (Return info, w') →
  ∃ mask helmet : bool,
    info = {[ "mask" := mask; "helmet" := helmet ]} ∧
    (mask = true ↔ labelled "mask" results) ∧
    (helmet = true ↔ labelled "helmet" results).
Proof.
  unfold detect_info. destruct results as [|r0 rest].
  { intros [= <- _]. exists false, false. split; [done|].
    split; (split; [done | by intros ?%not_labelled_nil]). }
  destruct (boxes r0) as [bx|] eqn:Hb.
  2:{ intros [= <- _]. exists false, false. split; [done|].
      split; (split; [done|]); intros (?&?&?&?&?&[= <- <-]&?&_); congruence. }
  destruct (cls bx) as [ids|] eqn:Hc.
  2:{ intros [= <- _]. exists false, false. split; [done|].
      split; (split; [done|]); intros (?&?&?&?&?&[= <- <-]&?&?&_); congruence. }
  unfold mbind, IO_bind. destruct (class_names r0 ids w) as [[ns|e] w1] eqn:Hns; [|done].
  intros [= <- _].
  pose proof (class_names_labels r0 ids w ns) as Hl. rewrite Hns in Hl.
  specialize (Hl eq_refl).
  exists (bool_decide ("mask" ∈ ns)), (bool_decide ("helmet" ∈ ns)). split_and!.
  - by do 2 case_bool_decide.
  - rewrite bool_decide_eq_true, Hl. split.
    + intros (c & Hin & Hn). by exists r0, rest, bx, ids, c.
    + intros (?&?&?&?&c&[= <- <-]&?&?&?&?). exists c. split; congruence.
  - rewrite bool_decide_eq_true, Hl. split.
    + intros (c & Hin & Hn). by exists r0, rest, bx, ids, c.
    + intros (?&?&?&?&c&[= <- <-]&?&?&?&?). exists c. split; congruence.
Qed.

Lemma flags_mean_labels_witness :
  ∃ mask helmet : bool,
    ({[ "mask" := true; "helmet" := false ]} : gmap string bool) =
      {[ "mask" := mask; "helmet" := helmet ]} ∧
    (mask = true ↔ labelled "mask" [seen [1; 2]]) ∧
    (helmet = true ↔ labelled "helmet" [seen [1; 2]]).
Proof.
  apply (flags_mean_labels [seen [1; 2]] (fresh []) _ (fresh [])). by vm_compute.
Defined.

Lemma class_names_unnamed r named c later w :
  Forall (λ i, is_Some (names r !! i)) named → names r !! c = None →
  class_names r (named ++ c :: later) w = (Raise (KeyError (KInt c)), w).
Proof.
  intros Hnamed Hc. induction Hnamed as [|i named [n Hn] _ IH]; simpl.
  - by rewrite Hc.
  - rewrite Hn. by rewrite (bind_Raise _ _ _ _ _ IH).
Qed.

(** X7.  A class id of the first result that its [names] lacks makes
    [process_image] raise KeyError for the first such id in box order, but
    only after a processed image was located: when the locator finds
    nothing, [(None, None)] is returned and the results are not looked at. *)
Theorem unnamed_class_id_raises model_predict source w r0 rest bx named c later :
  (model_predict source (output_root w)).1 = r0 :: rest →
  boxes r0 = Some bx → cls bx = Some (named ++ c :: later) →
  Forall (λ i, is_Some (names r0 !! i)) named → names r0 !! c = None →
  process_image model_predict source w =
  (match (locate_image (after_predict model_predict source w)).1 with
   | Return (Some _) => Raise (KeyError (KInt c))
   | Return None => Return (None, None)
   | Raise e => Raise e
   end, after_predict model_predict source w).
Proof.
  intros Hres Hb Hc Hnamed Hnone.
  destruct (process_image_cases model_predict source w)
    as [(p & -> & ->)|[[-> ->]|(path & -> & ->)]]; [done..|].
  simpl. rewrite Hres.
  assert (detect_info (r0 :: rest) (after_predict model_predict source w) =
          (Raise (KeyError (KInt c)), after_predict model_predict source w)) as Hinfo.
  { unfold detect_info. rewrite Hb, Hc.
    by rewrite (bind_Raise _ _ _ _ _ (class_names_unnamed _ _ _ later _ Hnamed Hnone)). }
  by rewrite (bind_Raise _ _ _ _ _ Hinfo).
Qed.

Lemma unnamed_class_id_raises_witness :
  process_image (leaving image_root unnamed_results) "photo.jpg" (fresh []) =
  (Raise (KeyError (KInt 7)), fresh image_root).
Proof.
  apply (unnamed_class_id_raises (leaving image_root unnamed_results) "photo.jpg" (fresh [])
           (seen [1; 7; 0]) [] (MkBoxes (Some [1; 7; 0])) [1] 7 [0]).
  - reflexivity.
  - reflexivity.
  - reflexivity.
  - constructor; [exists "mask"; by vm_compute | constructor].
  - by vm_compute.
Defined.

(** ** Which entry is the latest *)

Lemma newest_from_split best others :
  ∃ before after,
    best :: others = before ++ newest_from best others :: after ∧
    (∀ x, x ∈ before → e_mtime x < e_mtime (newest_from best others)) ∧
    (∀ x, x ∈ after → e_mtime x ≤ e_mtime (newest_from best others)).
Proof.
  revert best. induction others as [|x others IH]; intros best.
  - exists [], []. split_and!; [done|intros ? ?%not_elem_of_nil; done..].
  - simpl. case_bool_decide as Hlt.
    + destruct (IH x) as (before & after & E & Hb & Ha).
      exists (best :: before), after. rewrite E. split_and!; [done| |done].
      intros y [->|Hy]%elem_of_cons; [|by apply Hb].
      pose proof (newest_from_ge x others). lia.
    + destruct (IH best) as (before & after & E & Hb & Ha).
      set (e := newest_from best others) in *.
      destruct before as [|b before]; simpl in E; injection E as E1 E2.
      * exists [], (x :: after). split_and!.
        -- simpl. by rewrite <- E1, E2.
        -- by intros y ?%not_elem_of_nil.
        -- intros y [->|Hy]%elem_of_cons; [rewrite <- E1; lia | by apply Ha].
      * subst b. exists (best :: x :: before), after. split_and!; [|  |done].
        -- simpl. by rewrite E2.
        -- intros y [->|[->|Hy]%elem_of_cons]%elem_of_cons.
           ++ apply Hb. left.
           ++ pose proof (Hb best ltac:(left)). lia.
           ++ apply Hb. by right.
Qed.

(** X8.  [max(output_folders, key=os.path.getmtime)] returns the path of
    the visible entry with the greatest modification time; among entries
    modified at the same time the one listed first wins, so a later-listed
    entry replaces an earlier one only when it is strictly more recent. *)
Theorem latest_folder_first_among_ties w first others :
  wf_root (output_root w) →
  glob_glob "runs/detect/*" w = (Return (first :: others), w) →
  ∃ before e after,
    visible_entries (output_root w) = before ++ e :: after ∧
    py_max os_path_getmtime first others w = (Return (entry_path e), w) ∧
    (∀ x, x ∈ before → e_mtime x < e_mtime e) ∧
    (∀ x, x ∈ after → e_mtime x ≤ e_mtime e).
Proof.
  intros Hwf. rewrite glob_root.
  pose proof (λ e, proj1 (elem_of_filter_bool (λ e, negb (ishidden (e_name e))) (output_root w) e)) as Hvis.
  fold (visible_entries (output_root w)) in Hvis.
  destruct (visible_entries (output_root w)) as [|e0 es]; [done|].
  cbn [fmap list_fmap]. intros [= <- <-].
  destruct (newest_from_split e0 es) as (before & after & E & Hb & Ha).
  exists before, (newest_from e0 es), after. split_and!; [done| |done..].
  apply py_max_newest; [done|]. intros. by apply Hvis.
Qed.

Lemma wf_tie_root : wf_root tie_root.
Proof. split; [apply (bool_decide_unpack _); by vm_compute | by repeat constructor]. Defined.

Lemma latest_folder_first_among_ties_witness :
  ∃ before e after,
    visible_entries tie_root = before ++ e :: after ∧
    py_max os_path_getmtime "runs/detect/predict" ["runs/detect/predict2"] (fresh tie_root) =
      (Return (entry_path e), fresh tie_root) ∧
    (∀ x, x ∈ before → e_mtime x < e_mtime e) ∧
    (∀ x, x ∈ after → e_mtime x ≤ e_mtime e).
Proof.
  exact (latest_folder_first_among_ties (fresh tie_root) "runs/detect/predict"
           ["runs/detect/predict2"] wf_tie_root eq_refl).
Defined.

Lemma newest_strict root new :
  new ∈ root → ishidden (e_name new) = false →
  (∀ x, x ∈ root → ishidden (e_name x) = false → x ≠ new → e_mtime x < e_mtime new) →
  newest root = Some new.
Proof.
  intros Hin Hv Hstrict.
  assert (new ∈ visible_entries root) as Hnew.
  { apply elem_of_filter_bool. by rewrite Hv. }
  destruct (newest root) as [e|] eqn:He.
  - destruct (newest_most_recent _ _ He) as [Hev Hmax].
    destruct (decide (e = new)) as [->|Hne]; [done|].
    apply elem_of_filter_bool in Hev as [Hein Hevis%negb_true_iff].
    pose proof (Hstrict e Hein Hevis Hne). pose proof (Hmax new Hnew). lia.
  - unfold newest in He. destruct (visible_entries root); [|done].
    by apply not_elem_of_nil in Hnew.
Qed.

(** X9.  When one visible entry is strictly more recent than every other
    visible entry, both locators look in that entry only: what they return
    is a name it lists, and when it lists no name of a recognized extension
    they return None, whatever older entries hold. *)
Theorem most_recent_entry_only w new :
  wf_root (output_root w) →
  new ∈ output_root w → ishidden (e_name new) = false →
  (∀ x, x ∈ output_root w → ishidden (e_name x) = false → x ≠ new →
        e_mtime x < e_mtime new) →
  (∀ out, locate_video w = (Return (Some out), w) →
     ∃ n, n ∈ listing_of new ∧ video out = os_path_join (entry_path new) n) ∧
  ((∀ n, ¬ lists ".mp4" new n ∧ ¬ lists ".avi" new n) → locate_video w = (Return None, w)) ∧
  (∀ p, locate_image w = (Return (Some p), w) →
     ∃ n, n ∈ listing_of new ∧ p = os_path_join (entry_path new) n) ∧
  ((∀ n, ¬ lists ".jpg" new n ∧ ¬ lists ".png" new n) → locate_image w = (Return None, w)).
Proof.
  intros Hwf Hin Hv Hstrict. pose proof (newest_strict _ _ Hin Hv Hstrict) as Hnew.
  rewrite locate_video_spec, locate_image_spec by done.
  unfold located_video, located_image. rewrite Hnew. split_and!.
  - intros out. destruct (preferred new "*.mp4" "*.avi") as [|v vs] eqn:E; [done|].
    intros [= <-]. exists v. split; [|done]. eapply preferred_listed. rewrite E. left.
  - intros Hnone. apply (preferred_nil new ".mp4" ".avi") in Hnone; [|done..]. by rewrite Hnone.
  - intros p. destruct (preferred new "*.jpg" "*.png") as [|v vs] eqn:E; [done|].
    intros [= <-]. exists v. split; [|done]. eapply preferred_listed. rewrite E. left.
  - intros Hnone. apply (preferred_nil new ".jpg" ".png") in Hnone; [|done..]. by rewrite Hnone.
Qed.

Lemma most_recent_entry_only_witness :
  locate_video (fresh stray_file_root) = (Return None, fresh stray_file_root).
Proof.
  assert (wf_root stray_file_root) as Hwf.
  { split; [apply (bool_decide_unpack _); by vm_compute | by repeat constructor]. }
  apply (most_recent_entry_only (fresh stray_file_root) (Entry "notes.txt" 20 File) Hwf).
  - right. left.
  - reflexivity.
  - intros x [->|[->|?%not_elem_of_nil]%elem_of_cons]%elem_of_cons _ Hne; [simpl; lia|done..].
  - intros n. split; intros (Hn & _); by apply not_elem_of_nil in Hn.
Defined.

(** ** The paths returned *)

Lemma string_app_assoc (a b c : string) : (a +:+ b) +:+ c = a +:+ b +:+ c.
Proof.
  induction a as [|x a IH]; [done|].
  change ((String x a +:+ b) +:+ c) with (String x ((a +:+ b) +:+ c)).
  change (String x a +:+ b +:+ c) with (String x (a +:+ b +:+ c)). by rewrite IH.
Qed.

Lemma listed_path root e n :
  wf_root root → e ∈ root → n ∈ listing_of e →
  os_path_join (entry_path e) n = "runs/detect/" +:+ e_name e +:+ "/" +:+ n.
Proof.
  intros Hwf He Hn. pose proof (wf_root_entry _ _ Hwf He) as Hwe.
  destruct (entry_path_dir e) as (Hne & Hend & _); [by apply wf_entry_name|].
  rewrite join_plain; [|done..|by eapply posix_name_start, wf_entry_listing].
  rewrite entry_path_plain by by apply wf_entry_name. apply string_app_assoc.
Qed.

(** X10.  Every path the locators return is
    [runs/detect/<entry>/<name>] for a name listed by the most recent
    visible entry: the video and all sample frames come from the same
    entry, and the path [process_image] gets is never the empty string. *)
Theorem located_paths_in_newest w :
  wf_root (output_root w) →
  (∀ out, locate_video w = (Return (Some out), w) →
     ∃ e, newest (output_root w) = Some e ∧
          ∀ p, p ∈ video out :: images out →
               ∃ n, n ∈ listing_of e ∧ p = "runs/detect/" +:+ e_name e +:+ "/" +:+ n) ∧
  (∀ p, locate_image w = (Return (Some p), w) →
     ∃ e n, newest (output_root w) = Some e ∧ n ∈ listing_of e ∧
            p = "runs/detect/" +:+ e_name e +:+ "/" +:+ n ∧ p ≠ "").
Proof.
  intros Hwf. rewrite locate_video_spec, locate_image_spec by done.
  unfold located_video, located_image. split.
  - intros out. destruct (newest (output_root w)) as [e|] eqn:He; [|done].
    destruct (preferred e "*.mp4" "*.avi") as [|v vs] eqn:Ev; [done|]. intros [= <-].
    exists e. split; [done|]. cbn [video images].
    apply newest_visible in He as [He _].
    assert (∀ n, n ∈ listing_of e →
                 ∃ n', n' ∈ listing_of e ∧
                       os_path_join (entry_path e) n = "runs/detect/" +:+ e_name e +:+ "/" +:+ n')
      as Hok.
    { intros n Hn. exists n. split; [done|]. by eapply listed_path. }
    intros p [->|Hp]%elem_of_cons.
    + apply Hok. eapply preferred_listed. rewrite Ev. left.
    + apply subseteq_take in Hp. rewrite merge_sort_Permutation in Hp.
      apply list_elem_of_fmap in Hp as (n & -> & Hn). by eapply Hok, preferred_listed.
  - intros p. destruct (newest (output_root w)) as [e|] eqn:He; [|done].
    destruct (preferred e "*.jpg" "*.png") as [|v vs] eqn:Ev; [done|]. intros [= <-].
    apply newest_visible in He as [He _].
    assert (v ∈ listing_of e) as Hv by (eapply preferred_listed; rewrite Ev; left).
    exists e, v. rewrite (listed_path _ _ _ Hwf He Hv). by split_and!.
Qed.

Lemma located_paths_in_newest_witness :
  ∃ e n, newest site_root = Some e ∧ n ∈ listing_of e ∧
         "runs/detect/predict2/p.png" = "runs/detect/" +:+ e_name e +:+ "/" +:+ n ∧
         "runs/detect/predict2/p.png" ≠ "".
Proof.
  exact (proj2 (located_paths_in_newest (fresh site_root) wf_site_root)
           "runs/detect/predict2/p.png" eq_refl).
Defined.

Lemma visible_entries_hidden before hidden after :
  ishidden (e_name hidden) = true →
  visible_entries (before ++ hidden :: after) = visible_entries (before ++ after).
Proof.
  intros Hh. unfold visible_entries. rewrite !List.filter_app. simpl. by rewrite Hh.
Qed.

Lemma wf_root_remove before x after : wf_root (before ++ x :: after) → wf_root (before ++ after).
Proof.
  intros [Hnd Hall]. split.
  - rewrite fmap_app in *. rewrite fmap_cons in Hnd.
    apply NoDup_app in Hnd as (H1 & H2 & H3). apply NoDup_cons in H3 as [_ H3].
    apply NoDup_app. split_and!; [done| |done].
    intros y Hy Hy'. apply (H2 y Hy). by right.
  - apply Forall_app in Hall as [H1 H2]. apply Forall_cons in H2 as [_ H2].
    by apply Forall_app.
Qed.

(** X11.  Entries of the output root whose name starts with a dot play no
    part: with or without such an entry, however recent, both locators
    return the same. *)
Theorem hidden_entries_ignored w w' before hidden after :
  wf_root (output_root w) →
  output_root w = before ++ hidden :: after → output_root w' = before ++ after →
  ishidden (e_name hidden) = true →
  (locate_video w).1 = (locate_video w').1 ∧ (locate_image w).1 = (locate_image w').1.
Proof.
  intros Hwf Hw Hw' Hh.
  assert (wf_root (output_root w')) as Hwf'.
  { rewrite Hw'. rewrite Hw in Hwf. by eapply wf_root_remove. }
  rewrite !locate_video_spec, !locate_image_spec by done. simpl.
  unfold located_video, located_image, newest.
  by rewrite Hw, Hw', visible_entries_hidden.
Qed.

Lemma hidden_entries_ignored_witness :
  (locate_video (fresh site_root)).1 = (locate_video (fresh (take 2 site_root))).1 ∧
  (locate_image (fresh site_root)).1 = (locate_image (fresh (take 2 site_root))).1.
Proof.
  apply (hidden_entries_ignored (fresh site_root) (fresh (take 2 site_root))
           (take 2 site_root) (Entry ".cache" 30 (Dir ["q.mp4"])) []).
  - exact wf_site_root.
  - reflexivity.
  - reflexivity.
  - reflexivity.
Defined.

(** X12.  On one output root the two locators agree about still images:
    when [process_video]'s scan succeeds, its sample frames are empty
    exactly when [process_image]'s scan finds nothing; and the image
    [process_image]'s scan selects (the first listed, unsorted) is one of
    the sample frames whenever fewer than three frames are returned. *)
Theorem frames_and_image_agree w out :
  wf_root (output_root w) →
  locate_video w = (Return (Some out), w) →
  (images out = [] ↔ locate_image w = (Return None, w)) ∧
  (∀ p, locate_image w = (Return (Some p), w) →
        (length (images out) < 3)%nat → p ∈ images out).
Proof.
  intros Hwf. rewrite locate_video_spec, locate_image_spec by done.
  unfold located_video, located_image.
  destruct (newest (output_root w)) as [e|]; [|done].
  destruct (preferred e "*.mp4" "*.avi") as [|v vs]; [done|]. intros [= <-]. cbn [images].
  set (stills := preferred e "*.jpg" "*.png").
  set (sorted := merge_sort py_str_le (os_path_join (entry_path e) <$> stills)).
  assert (sorted ≡ₚ os_path_join (entry_path e) <$> stills) as Hperm
    by apply merge_sort_Permutation.
  split.
  - split.
    + intros Hnil. destruct stills as [|s rest]; [done|]. exfalso.
      destruct sorted as [|x xs]; [|done].
      by apply Permutation_nil_l in Hperm.
    + destruct stills as [|s rest]; [|done]. intros _.
      apply Permutation_nil_r in Hperm. by rewrite Hperm.
  - intros p Hp Hlen. destruct stills as [|s rest]; [done|]. injection Hp as <-.
    rewrite length_take in Hlen. rewrite take_ge by lia.
    rewrite Hperm. left.
Qed.

Lemma frames_and_image_agree_witness :
  images (VideoOut "runs/detect/predict/clip.mp4" []) = [] ↔
  locate_image (fresh video_only_root) = (Return None, fresh video_only_root).
Proof.
  exact (proj1 (frames_and_image_agree (fresh video_only_root)
                  (VideoOut "runs/detect/predict/clip.mp4" []) wf_video_only_root eq_refl)).
Defined.

(** X13.  After a first processing that located a video on a well-formed
    output root, and when the located video can be opened, the page shows
    each sample frame captioned with its file name, the names in the order
    of [str], below the download button, and stores the result in the
    session.  The frames are names of the still images selected in the
    newest entry, three of them or all when there are fewer. *)
Theorem video_page_shows_frames model_predict source w out :
  processed_data w = None →
  wf_root (output_root (after_predict model_predict source w)) →
  (process_video model_predict source w).1 = Return (Some out) →
  readable (output_root (after_predict model_predict source w)) (video out) = true →
  ∃ e frames,
    newest (output_root (after_predict model_predict source w)) = Some e ∧
    images out = os_path_join (entry_path e) <$> frames ∧
    StronglySorted py_str_le frames ∧
    (∀ n, n ∈ frames → n ∈ preferred e "*.jpg" "*.png") ∧
    length frames = Nat.min 3 (length (preferred e "*.jpg" "*.png")) ∧
    video_page model_predict (Some source) w =
    (Return (),
     World (output_root (after_predict model_predict source w))
       (screen w ++
        [ st_title "PPE Detection on Construction Sites - Video";
          st_write "Upload a video file (mp4 or avi) to detect PPE using the YOLO model.";
          st_subheader "Original Uploaded Video";
          st_video source;
          st_spinner "Processing video, please wait...";
          st_success "Video processed successfully!";
          st_download_button "Download Processed Video" (video out)
            "processed_video.mp4" "video/mp4" ] ++
        match frames with
        | [] => [ st_warning "No processed images found to display." ]
        | _ => st_subheader "Sample Processed Images" ::
               ((λ n, st_image (os_path_join (entry_path e) n) (Some n)) <$> frames)
        end ++
        [ st_subheader "Recommendations"; st_markdown recommendations ])
       (Some out)).
Proof.
  intros Hfresh Hwf Hrun Hread. rewrite (video_page_located _ _ _ _ Hfresh Hrun Hread).
  rewrite process_video_spec in Hrun by done. injection Hrun as Hloc.
  unfold located_video in Hloc. destruct (newest _) as [e|] eqn:He; [|done].
  destruct (preferred e "*.mp4" "*.avi") as [|v vs]; [done|]. injection Hloc as <-.
  cbn [images video].
  assert (wf_entry e = true) as Hwe.
  { apply newest_visible in He as [He _]. by eapply wf_root_entry. }
  pose proof (preferred_posix e "*.jpg" "*.png" Hwe) as Hposix.
  destruct (sorted_frames e _ Hwe Hposix) as (Hin & Hsorted & _).
  set (paths := take 3 (merge_sort py_str_le
                          (os_path_join (entry_path e) <$> preferred e "*.jpg" "*.png"))) in *.
  assert (Forall (λ p, os_path_join (entry_path e) (os_path_basename p) = p ∧
                       os_path_basename p ∈ preferred e "*.jpg" "*.png") paths) as Hpaths.
  { apply Forall_forall. intros p (n & Hn & ->)%Hin.
    destruct (entry_join e n Hwe) as [_ ->]; [by eapply Forall_forall in Hposix|]. done. }
  assert (paths = os_path_join (entry_path e) <$> (os_path_basename <$> paths)) as Hjoin.
  { rewrite <- list_fmap_compose. rewrite <- (list_fmap_id paths) at 1.
    apply Forall_fmap_ext. eapply Forall_impl; [exact Hpaths|]. intros p [Hp _]. simpl. by rewrite Hp. }
  exists e, (os_path_basename <$> paths). split_and!; [done..| | | ].
  - intros n (p & -> & Hp)%list_elem_of_fmap. by eapply Forall_forall in Hpaths as [_ ?].
  - unfold paths. by rewrite length_fmap, length_take, merge_sort_Permutation, length_fmap.
  - assert ((λ img_file, st_image img_file (Some (os_path_basename img_file))) <$> paths =
            (λ n, st_image (os_path_join (entry_path e) n) (Some n)) <$>
              (os_path_basename <$> paths)) as Hcaptions.
    { rewrite <- list_fmap_compose. apply Forall_fmap_ext.
      eapply Forall_impl; [exact Hpaths|]. intros q [Hq _]. simpl. by rewrite Hq. }
    do 3 f_equal. f_equal. clear Hjoin. by destruct paths; [|rewrite Hcaptions].
Qed.

Lemma video_page_shows_frames_witness :
  ∃ e frames,
    newest (take 1 site_root) = Some e ∧
    [ "runs/detect/predict/a.jpg"; "runs/detect/predict/c.jpg"; "runs/detect/predict/k.jpg" ] =
      os_path_join (entry_path e) <$> frames ∧
    StronglySorted py_str_le frames ∧
    (∀ n, n ∈ frames → n ∈ preferred e "*.jpg" "*.png") ∧
    length frames = Nat.min 3 (length (preferred e "*.jpg" "*.png")).
Proof.
  destruct (video_page_shows_frames (leaving (take 1 site_root) []) "upload.mp4" (fresh [])
              three_frames eq_refl wf_first_folder eq_refl eq_refl)
    as (e & frames & He & Hi & Hs & Hn & Hl & _).
  by exists e, frames.
Defined.

(** ** The temporary file's suffix *)

Lemma str_split_nonempty sep s : str_split sep s ≠ [].
Proof. destruct s as [|c s]; [done|]. simpl. case_bool_decide; [done|]. by destruct (str_split sep s). Qed.

Lemma concat_cons sep x y l :
  String.concat sep (x :: y :: l) = x +:+ sep +:+ String.concat sep (y :: l).
Proof. done. Qed.

(** [sep.join(s.split(sep)) == s] *)
Lemma str_split_join sep s : String.concat (String sep "") (str_split sep s) = s.
Proof.
  induction s as [|c s IH]; [done|]. simpl. case_bool_decide as Hc.
  - pose proof (str_split_nonempty sep s) as Hne.
    destruct (str_split sep s) as [|x xs]; [done|]. rewrite concat_cons, IH. by subst.
  - pose proof (str_split_nonempty sep s) as Hne.
    destruct (str_split sep s) as [|x xs]; [done|].
    destruct xs as [|y ys].
    + simpl in *. by rewrite IH.
    + rewrite concat_cons in *. rewrite <- IH. done.
Qed.

Lemma str_split_no_sep sep s :
  Forall (λ part, all_chars (λ c, negb (bool_decide (c = sep))) part = true) (str_split sep s).
Proof.
  induction s as [|c s IH]; [by repeat constructor|]. simpl. case_bool_decide as Hc.
  - by constructor.
  - destruct (str_split sep s) as [|x xs].
    + constructor; [|constructor]. simpl. by rewrite bool_decide_eq_false_2.
    + apply Forall_cons in IH as [Hx Hxs]. constructor; [|done]. simpl.
      by rewrite Hx, bool_decide_eq_false_2.
Qed.

Lemma concat_snoc sep pre x :
  pre ≠ [] → String.concat sep (pre ++ [x]) = String.concat sep pre +:+ sep +:+ x.
Proof.
  induction pre as [|y pre IH]; [done|]. intros _. destruct pre as [|z pre].
  - done.
  - cbn [app] in *. rewrite !concat_cons, IH by done. by rewrite !string_app_assoc.
Qed.

(** X14.  The suffix of the temporary image file is a dot followed by what
    follows the last dot of the uploaded file's name, so the upload's
    extension is kept; for a name without a dot it is a dot followed by the
    whole name.  The lookup [[-1]] never fails. *)
Theorem temp_suffix_extension uploaded_name :
  ∃ extension,
    temp_suffix uploaded_name = Some ("." +:+ extension) ∧
    all_chars (λ c, negb (bool_decide (c = "."%char))) extension = true ∧
    ((uploaded_name = extension) ∨ ∃ stem, uploaded_name = stem +:+ "." +:+ extension).
Proof.
  unfold temp_suffix.
  destruct (last (str_split "." uploaded_name)) as [extension|] eqn:Hlast.
  2:{ apply last_None in Hlast. by apply str_split_nonempty in Hlast. }
  exists extension. split; [done|].
  pose proof Hlast as [pre Hpre]%last_Some. split.
  - pose proof (str_split_no_sep "." uploaded_name) as Hall. rewrite Hpre in Hall.
    apply Forall_app in Hall as [_ Hall]. by apply Forall_cons in Hall as [? _].
  - pose proof (str_split_join "." uploaded_name) as Hjoin. rewrite Hpre in Hjoin.
    destruct pre as [|x pre]; [by left|]. right.
    rewrite concat_snoc in Hjoin by done. eauto.
Qed.

Example str_split_samples :
  str_split "." "site.photo.jpg" = ["site"; "photo"; "jpg"] ∧
  str_split "." "photo" = ["photo"] ∧ str_split "." "" = [""] ∧
  str_split "." ".env." = [""; "env"; ""].
Proof. repeat split; reflexivity. Qed.

Example temp_suffix_samples :
  temp_suffix "site.photo.jpg" = Some ".jpg" ∧ temp_suffix "photo" = Some ".photo" ∧
  temp_suffix "scan." = Some ".".
Proof. repeat split; reflexivity. Qed.

(** ** The image page shows no verdict *)

Lemma emits_bind_post {A B} P (Q : A → Prop) (m : IO A) (f : A → IO B) :
  emits P m → (∀ w a w', m w = (Return a, w') → Q a) →
  (∀ a, Q a → emits P (f a)) → emits P (m ≫= f).
Proof.
  intros Hm HQ Hf w. unfold mbind, IO_bind. destruct (Hm w) as (l1 & H1 & HP1).
  pose proof (HQ w) as HQw.
  destruct (m w) as [[a|e] w1]; simpl in *; [|eauto].
  destruct (Hf a (HQw a w1 eq_refl) w1) as (l2 & H2 & HP2). exists (l1 ++ l2).
  rewrite H2, H1, app_assoc. split; [done | by apply Forall_app].
Qed.

Lemma emits_raise_bind {A B} P e (f : A → IO B) : emits P (raise e ≫= f).
Proof. intros w. exists []. by rewrite app_nil_r. Qed.

(** X15.  For no detector, output root or upload does the image page show
    a verdict: none of the widgets it puts on the screen is "All required
    PPE detected!" or a "Warning: No ... detected!" message, because the
    lookup of the key "Hardhat" stops every run that located an image. *)
Theorem image_page_never_shows_verdict model_predict uploaded :
  emits (λ x, ¬ verdict_widget x) (image_page model_predict uploaded).
Proof.
  assert (∀ x, (x ≠ st_success "All required PPE detected!" ∧ ∀ body, x ≠ st_error (String "W" body)) →
               ¬ verdict_widget x) as Hnot.
  { intros x [H1 H2] [->|[body ->]]%verdict_widget_inv; [done | by eapply H2]. }
  unfold image_page.
  apply emits_bind; [by apply emits_st, Hnot|]. intros _.
  apply emits_bind; [by apply emits_st, Hnot|]. intros _.
  destruct uploaded as [img_temp_name|]; [|apply emits_ret].
  apply emits_bind; [by apply emits_st, Hnot|]. intros _.
  apply emits_bind; [by apply emits_st, Hnot|]. intros _.
  apply emits_bind; [by apply emits_st, Hnot|]. intros _.
  apply (emits_bind_post _ image_shape).
  - apply emits_by_root, by_root_process_image.
  - intros w v w'. apply process_image_returns.
  - intros v [->|(path & info & -> & Hdom)]; [by apply emits_st, Hnot|].
    destruct path as [|c path]; [by apply emits_st, Hnot|].
    apply emits_bind; [by apply emits_st, Hnot|]. intros _.
    apply emits_bind; [by apply emits_st, Hnot|]. intros _.
    destruct (flags_lookup info Hdom) as [[b Hb] Hnone].
    unfold getitem. rewrite Hb, Hnone.
    apply emits_bind; [apply emits_ret|]. intros mask.
    apply emits_raise_bind.
Qed.
